(** * libbdsg [mapped_structs.hpp]: endian cells, offset pointers and the
      arena allocator kept inside a memory mapping

    The development embeds the header [bdsg/internal/mapped_structs.hpp]:

    - [big_endian<T>], a fixed-width integer kept in big-endian byte order;
    - [offset_ptr<T>] and [offset_to<ref_t>], pointers stored as an offset
      from their own storage location;
    - [ArenaAllocatorRef<T>], the free-list allocator whose bookkeeping lives
      in the byte array it manages;
    - [yomo::Pointer<T>] and [yomo::UniqueMappedPointer<T>], the chain pointer
      and the owning handle that talk to [yomo::Manager];
    - [ArenaRefAllocatorRef<ref_t>], [MappedVectorRef<item_t>] and
      [CompatVector<T, Alloc>], the root object and the vectors built on the
      allocator;

    and, from [packed_structs.cpp], the iterator of [PackedSet].

    Machine integers are [Z] with the wrap-around written out, memory is a
    byte store addressed by [Z], and every operation that can throw, step
    outside its region or loop forever returns an [outcome]. *)

From Stdlib Require Import ZArith List Lia String Bool DecimalString.
From coqutil Require Import Byte Word.LittleEndianList.
Import ListNotations.
Local Open Scope Z_scope.

(** ** Outcomes of a C++ call *)

(** An exception of the header: every [throw] in it is a
    [std::runtime_error]; the resize callback of a [MappingContext] "must
    throw if allocation did not happen", with a type the header leaves open. *)
Inductive exn : Type :=
| runtime_error (what : string)
| resize_failed.

(** Undefined behaviour the model tracks: an access outside the bytes of the
    mapping, and control that flows off the end of a function declared to
    return a value. *)
Inductive ub : Type := out_of_bounds | missing_return.

Inductive outcome (A : Type) : Type :=
| Ret (a : A)            (* normal return *)
| Throw (e : exn)        (* an exception leaves the call *)
| Undefined (why : ub)   (* the C++ standard gives the call no meaning *)
| OutOfFuel.             (* a loop did not finish within the fuel given *)
Arguments Ret {A} a.
Arguments Throw {A} e.
Arguments Undefined {A} why.
Arguments OutOfFuel {A}.

Definition obind {A B : Type} (o : outcome A) (k : A -> outcome B) : outcome B :=
  match o with
  | Ret a => k a
  | Throw e => Throw e
  | Undefined why => Undefined why
  | OutOfFuel => OutOfFuel
  end.

(** ** Machine integers *)

Definition SIZE_MAX : Z := 2 ^ 64 - 1.      (* std::numeric_limits<size_t>::max() *)
Definition wrap64 (z : Z) : Z := z mod 2 ^ 64.

(** Byte order of the host, which decides what <endian.h>'s [htobeNN] and
    [beNNtoh] do. *)
Inductive byte_order : Type := LittleEndian | BigEndian.

(** An integer type [T]: its [sizeof] and signedness. *)
Record int_type : Type := { sizeof : nat; is_signed : bool }.

Definition bits (T : int_type) : Z := 8 * Z.of_nat (sizeof T).

(** [std::numeric_limits<T>::digits]: "signed types report 1 fewer bits". *)
Definition digits (T : int_type) : Z :=
  if is_signed T then bits T - 1 else bits T.

Definition int_min (T : int_type) : Z :=
  if is_signed T then - 2 ^ (bits T - 1) else 0.
Definition int_max (T : int_type) : Z :=
  if is_signed T then 2 ^ (bits T - 1) - 1 else 2 ^ bits T - 1.
Definition in_range (T : int_type) (x : Z) : Prop := int_min T <= x <= int_max T.

(** Conversion of an integer to an unsigned type of [n] bytes, and the cast
    [(T) x] (two's complement for a signed [T]). *)
Definition to_unsigned (n : nat) (x : Z) : Z := x mod 2 ^ (8 * Z.of_nat n).
Definition cast (T : int_type) (x : Z) : Z :=
  let u := to_unsigned (sizeof T) x in
  if is_signed T && (2 ^ (bits T - 1) <=? u) then u - 2 ^ bits T else u.

Definition uint16_t : int_type := {| sizeof := 2; is_signed := false |}.
Definition int16_t : int_type := {| sizeof := 2; is_signed := true |}.
Definition uint32_t : int_type := {| sizeof := 4; is_signed := false |}.
Definition int32_t : int_type := {| sizeof := 4; is_signed := true |}.
Definition uint64_t : int_type := {| sizeof := 8; is_signed := false |}.
Definition int64_t : int_type := {| sizeof := 8; is_signed := true |}.
Definition size_t : int_type := uint64_t.
Definition uint8_t : int_type := {| sizeof := 1; is_signed := false |}.

(** The widths [big_endian] implements: 16, 32 and 64 bits. *)
Definition supported (T : int_type) : Prop :=
  sizeof T = 2%nat \/ sizeof T = 4%nat \/ sizeof T = 8%nat.

(** The object representation of a [T] on the host: [*((T* )storage) = v]
    and [*((const T* )storage)]. *)
Definition host_store (host : byte_order) (T : int_type) (v : Z) : list byte :=
  match host with
  | LittleEndian => le_split (sizeof T) v
  | BigEndian => rev (le_split (sizeof T) v)
  end.

Definition host_load (host : byte_order) (T : int_type) (bs : list byte) : Z :=
  cast T (le_combine (match host with LittleEndian => bs | BigEndian => rev bs end)).

(** [bswap_NN]: reverse the [n] bytes of an unsigned value. *)
Definition bswap (n : nat) (x : Z) : Z := le_combine (rev (le_split n x)).

(** [htobe16/32/64] and [be16/32/64toh] on an unsigned [n]-byte value: the
    identity on a big-endian host, a byte swap on a little-endian one. *)
Definition htobe (host : byte_order) (n : nat) (x : Z) : Z :=
  match host with LittleEndian => bswap n x | BigEndian => x end.
Definition betoh (host : byte_order) (n : nat) (x : Z) : Z :=
  match host with LittleEndian => bswap n x | BigEndian => x end.

(** ** [big_endian<T>] *)

Module big_endian.

(** The cell is [char storage[sizeof(T)]]. *)
Definition t : Type := list byte.

Definition unimplemented {A : Type} (T : int_type) : outcome A :=
  Throw (runtime_error
           ("Unimplemented bit width: " ++ NilZero.string_of_int (Z.to_int (digits T)))).

(** [big_endian<T>::operator=(const T& x)]; the result is the new storage. *)
Definition assign (host : byte_order) (T : int_type) (x : Z) : outcome t :=
  match digits T with
  | 64 | 63 => Ret (host_store host T (cast T (htobe host 8 (to_unsigned 8 x))))
  | 32 | 31 => Ret (host_store host T (cast T (htobe host 4 (to_unsigned 4 x))))
  | 16 | 15 => Ret (host_store host T (cast T (htobe host 2 (to_unsigned 2 x))))
  | _ => unimplemented T
  end.

(** [big_endian<T>::big_endian(const T& value)] is [*this = value]. *)
Definition of_value (host : byte_order) (T : int_type) (value : Z) : outcome t :=
  assign host T value.

(** [big_endian<T>::operator T () const]. *)
Definition to_host (host : byte_order) (T : int_type) (storage : t) : outcome Z :=
  match digits T with
  | 64 | 63 => Ret (cast T (betoh host 8 (to_unsigned 8 (host_load host T storage))))
  | 32 | 31 => Ret (cast T (betoh host 4 (to_unsigned 4 (host_load host T storage))))
  | 16 | 15 => Ret (cast T (betoh host 2 (to_unsigned 2 (host_load host T storage))))
  | _ => unimplemented T
  end.

(** [big_endian<T>::big_endian()]: every byte of the storage is zeroed (the
    constructor then asserts [*this == 0]). *)
Definition default (T : int_type) : t := repeat Byte.x00 (sizeof T).

End big_endian.

(** ** State and error monad

    A call runs on a state [S] and leaves an outcome together with the state
    it reached: what was written before a [throw] stays written. *)

Definition M (S A : Type) : Type := S -> outcome A * S.

Definition ret {S A : Type} (a : A) : M S A := fun s => (Ret a, s).

Definition bind {S A B : Type} (m : M S A) (k : A -> M S B) : M S B :=
  fun s =>
    match m s with
    | (Ret a, s') => k a s'
    | (Throw e, s') => (Throw e, s')
    | (Undefined why, s') => (Undefined why, s')
    | (OutOfFuel, s') => (OutOfFuel, s')
    end.

Definition throw {S A : Type} (e : exn) : M S A := fun s => (Throw e, s).
Definition undefined {S A : Type} (why : ub) : M S A := fun s => (Undefined why, s).
Definition out_of_fuel {S A : Type} : M S A := fun s => (OutOfFuel, s).
Definition lift {S A : Type} (o : outcome A) : M S A := fun s => (o, s).

Declare Scope monad_scope.
Delimit Scope monad_scope with monad.
Notation "x <- m ;; k" := (bind m (fun x => k))
  (at level 61, m at next level, right associativity) : monad_scope.
Notation "m ;;; k" := (bind m (fun _ => k))
  (at level 61, right associativity) : monad_scope.
Local Open Scope monad_scope.

(** ** Memory *)

(** A byte store addressed by [Z]. *)
Definition memory : Type := Z -> byte.

Definition load_bytes (m : memory) (a : Z) (n : nat) : list byte :=
  map (fun i => m (a + Z.of_nat i)) (seq 0 n).

Definition store_bytes (m : memory) (a : Z) (bs : list byte) : memory :=
  fun a' =>
    if (a <=? a') && (a' <? a + Z.of_nat (List.length bs))
    then nth (Z.to_nat (a' - a)) bs Byte.x00
    else m a'.

(** A [big_endian<size_t>] member stored at address [a]: its conversion to
    [size_t] and its assignment. *)
Definition read_size_t (host : byte_order) (a : Z) : M memory Z :=
  fun m => (big_endian.to_host host size_t (load_bytes m a 8), m).

Definition write_size_t (host : byte_order) (a : Z) (v : Z) : M memory unit :=
  fun m =>
    match big_endian.assign host size_t v with
    | Ret bs => (Ret tt, store_bytes m a bs)
    | Throw e => (Throw e, m)
    | Undefined why => (Undefined why, m)
    | OutOfFuel => (OutOfFuel, m)
    end.

(** The number held by the eight bytes at [a], most significant byte first,
    and the store of those eight bytes. *)
Definition read64 (m : memory) (a : Z) : Z := le_combine (rev (load_bytes m a 8)).
Definition write64 (m : memory) (a : Z) (v : Z) : memory :=
  store_bytes m a (rev (le_split 8 v)).

(** ** [offset_ptr<T>]

    The pointer is the object at address [this]; its only member is
    [big_endian<size_t> offset]. Host addresses are [size_t] values and the
    null pointer is address 0. *)

Module offset_ptr.

Definition offset (host : byte_order) (this : Z) : M memory Z :=
  read_size_t host this.
Definition set_offset (host : byte_order) (this : Z) (v : Z) : M memory unit :=
  write_size_t host this v.

(** [offset_ptr<T>::offset_ptr() : offset(SIZE_MAX)]. *)
Definition construct (host : byte_order) (this : Z) : M memory unit :=
  set_offset host this SIZE_MAX.

(** [offset_ptr<T>::operator bool () const]. *)
Definition to_bool (host : byte_order) (this : Z) : M memory bool :=
  off <- offset host this ;;
  ret (negb (off =? SIZE_MAX)).

(** [offset_ptr<T>::operator->()]. *)
Definition arrow (host : byte_order) (this : Z) : M memory Z :=
  off <- offset host this ;;
  if off =? SIZE_MAX
  then throw (runtime_error "Null pointer dereference")
  else ret (wrap64 (this + off)).

(** [offset_ptr<T>::operator=(const T* addr)]; it ends in [return *this],
    the address of the assigned-to pointer. *)
Definition assign_addr (host : byte_order) (this : Z) (addr : Z) : M memory Z :=
  (if negb (addr =? 0)
   then set_offset host this (wrap64 (addr - this))
   else set_offset host this SIZE_MAX) ;;;
  ret this.

(** [offset_ptr<T>::operator+(size_t items)], in units of [sizeof(T)]. *)
Definition plus (host : byte_order) (sizeof_T : Z) (this : Z) (items : Z) : M memory Z :=
  p <- arrow host this ;;
  ret (wrap64 (p + items * sizeof_T)).

(** [offset_ptr<T>::operator=(const offset_ptr<T>& other)]: the body is the
    single statement [*this = other.operator->();] and control then reaches
    the closing brace of a function declared to return [offset_ptr<T>&]. *)
Definition copy_assign (host : byte_order) (this other : Z) : M memory Z :=
  p <- arrow host other ;;
  assign_addr host this p ;;;
  undefined missing_return.

(** [offset_ptr<T>::operator=(offset_ptr<T>&& other)]: the same body. *)
Definition move_assign (host : byte_order) (this other : Z) : M memory Z :=
  p <- arrow host other ;;
  assign_addr host this p ;;;
  undefined missing_return.

(** [offset_ptr<T>::offset_ptr(const offset_ptr<T>& other)]: [offset] is
    default-constructed (zeroed), then [*this = other.operator->();]. *)
Definition copy_construct (host : byte_order) (this other : Z) : M memory unit :=
  (fun m => (Ret tt, store_bytes m this (big_endian.default size_t))) ;;;
  p <- arrow host other ;;
  assign_addr host this p ;;;
  ret tt.

(** [offset_ptr<T>::offset_ptr(offset_ptr<T>&& other)]: the same body. *)
Definition move_construct (host : byte_order) (this other : Z) : M memory unit :=
  (fun m => (Ret tt, store_bytes m this (big_endian.default size_t))) ;;;
  p <- arrow host other ;;
  assign_addr host this p ;;;
  ret tt.

End offset_ptr.

(** ** [MappingContext] and references into it

    [base_address], [size] and [resize] are the fields of the struct. The
    bytes mapped at [base_address] are kept by position: the byte at host
    address [base_address + p] is [bytes c p], so that a resize which moves
    the region keeps every position. An access to bytes outside
    [0 .. size) is undefined. The callback [resize] answers with the new
    base address, or [None] when it throws. *)
Record MappingContext : Type := {
  base_address : Z;
  size : Z;
  resize : Z -> option Z;
  bytes : memory
}.

Definition with_bytes (c : MappingContext) (m : memory) : MappingContext :=
  {| base_address := base_address c; size := size c; resize := resize c; bytes := m |}.
Definition with_size (c : MappingContext) (n : Z) : MappingContext :=
  {| base_address := base_address c; size := n; resize := resize c; bytes := bytes c |}.
Definition with_base_address (c : MappingContext) (b : Z) : MappingContext :=
  {| base_address := b; size := size c; resize := resize c; bytes := bytes c |}.

Definition in_context (c : MappingContext) (p n : Z) : bool :=
  (0 <=? p) && (p + n <=? size c).

(** Run an operation on the [n] bytes of the object at position [p]. *)
Definition at_position {A : Type} (p n : Z) (op : M memory A) : M MappingContext A :=
  fun c =>
    if in_context c p n
    then let (r, m') := op (bytes c) in (r, with_bytes c m')
    else (Undefined out_of_bounds, c).

Definition get_size : M MappingContext Z := fun c => (Ret (size c), c).
Definition set_size (n : Z) : M MappingContext unit := fun c => (Ret tt, with_size c n).

(** [context->base_address = context->resize(n)]. *)
Definition call_resize (n : Z) : M MappingContext unit :=
  fun c =>
    match resize c n with
    | Some b => (Ret tt, with_base_address c b)
    | None => (Throw resize_failed, c)
    end.

(** A reference object [base_ref_t<Derived>]: the context pointer (null or
    the context) and a position in it. *)
Record ref : Type := { context : bool; position : Z }.

Module base_ref_t.

(** [base_ref_t(MappingContext* context, size_t position)]. *)
Definition make (p : Z) : ref := {| context := true; position := p |}.

(** [base_ref_t()]: the null reference, [context(nullptr), position(0)]. *)
Definition null : ref := {| context := false; position := 0 |}.

(** [operator bool]. *)
Definition to_bool (r : ref) : bool := context r.

(** [get_body()], as a position. *)
Definition get_body (r : ref) : M MappingContext Z :=
  if context r then ret (position r)
  else throw (runtime_error "Trying to follow a null reference").

End base_ref_t.

(** ** [offset_to<ref_t>]: an [offset_ptr] to the body of a reference

    [self] is the position of the pointer object, [(char* ) this -
    context->base_address]. *)

Module offset_to.

Definition to_bool (host : byte_order) (self : Z) : M MappingContext bool :=
  at_position self 8 (offset_ptr.to_bool host self).

(** The default constructor, inherited from [offset_ptr]. *)
Definition construct (host : byte_order) (self : Z) : M MappingContext unit :=
  at_position self 8 (offset_ptr.construct host self).

(** [offset_to<ref_t>::get(MappingContext* context)]. *)
Definition get (host : byte_order) (self : Z) : M MappingContext ref :=
  nonnull <- to_bool host self ;;
  if nonnull : bool then
    off <- at_position self 8 (offset_ptr.offset host self) ;;
    ret (base_ref_t.make (wrap64 (self + off)))
  else ret base_ref_t.null.

(** [offset_to<ref_t>::get_at(MappingContext* context, size_t index)]. *)
Definition get_at (host : byte_order) (sizeof_body : Z) (self : Z) (index : Z)
  : M MappingContext ref :=
  nonnull <- to_bool host self ;;
  if nonnull : bool then
    off <- at_position self 8 (offset_ptr.offset host self) ;;
    ret (base_ref_t.make (wrap64 (wrap64 (self + off) + wrap64 (index * sizeof_body))))
  else ret base_ref_t.null.

(** [offset_to<ref_t>::operator=(const ref_t& other)]. *)
Definition assign (host : byte_order) (self : Z) (other : ref) : M MappingContext unit :=
  if base_ref_t.to_bool other
  then at_position self 8 (offset_ptr.set_offset host self (wrap64 (position other - self)))
  else at_position self 8 (offset_ptr.set_offset host self SIZE_MAX).

(** [offset_to<ref_t>::operator==(const ref_t& other)]. *)
Definition eqb (host : byte_order) (self : Z) (other : ref) : M MappingContext bool :=
  nonnull <- to_bool host self ;;
  if negb nonnull || negb (base_ref_t.to_bool other)
  then ret (negb nonnull && negb (base_ref_t.to_bool other))
  else
    off <- at_position self 8 (offset_ptr.offset host self) ;;
    ret (wrap64 (self + off) =? position other).

End offset_to.

(** ** [ArenaAllocatorBlockRef]: the header before every block

    [struct body_t { offset_to prev; offset_to next; big_endian<size_t> size; }]
    is declared in the header; the member functions are only declared there
    ("ArenaAllocatorBlockRef isn't a template so it lives in the CPP"). *)

Module ArenaAllocatorBlockRef.

Definition sizeof_body_t : Z := 24.
Definition prev_at (body : Z) : Z := body.
Definition next_at (body : Z) : Z := body + 8.
Definition size_at (body : Z) : Z := body + 16.

(** Placement [new (p) body_t]: both pointers are default-constructed (null)
    and the size cell is zeroed. *)
Definition construct_body (host : byte_order) (p : Z) : M MappingContext unit :=
  offset_to.construct host (prev_at p) ;;;
  offset_to.construct host (next_at p) ;;;
  at_position (size_at p) 8 (fun m => (Ret tt, store_bytes m (size_at p) (big_endian.default size_t))).

(** Modelled from the spec: the body of [get_prev] is not in the header.
    "Get the previous entry in the free list." *)
Definition get_prev (host : byte_order) (r : ref) : M MappingContext ref :=
  body <- base_ref_t.get_body r ;;
  offset_to.get host (prev_at body).

(** Modelled from the spec: the body of [set_prev] is not in the header.
    "Set the previous entry in the free list." *)
Definition set_prev (host : byte_order) (r : ref) (prev : ref) : M MappingContext unit :=
  body <- base_ref_t.get_body r ;;
  offset_to.assign host (prev_at body) prev.

(** Modelled from the spec: the body of [get_next] is not in the header.
    "Get the next entry in the free list." *)
Definition get_next (host : byte_order) (r : ref) : M MappingContext ref :=
  body <- base_ref_t.get_body r ;;
  offset_to.get host (next_at body).

(** Modelled from the spec: the body of [set_next] is not in the header.
    "Set the next entry in the free list." *)
Definition set_next (host : byte_order) (r : ref) (next : ref) : M MappingContext unit :=
  body <- base_ref_t.get_body r ;;
  offset_to.assign host (next_at body) next.

(** Modelled from the spec: the body of [size] is not in the header.
    "Get the size of the block, after the header." *)
Definition get_block_size (host : byte_order) (r : ref) : M MappingContext Z :=
  body <- base_ref_t.get_body r ;;
  at_position (size_at body) 8 (read_size_t host (size_at body)).

(** Modelled from the spec: the body of [size] is not in the header.
    "Get or set the size of the block, after the header. You can assign to
    the result." *)
Definition set_block_size (host : byte_order) (r : ref) (v : Z) : M MappingContext unit :=
  body <- base_ref_t.get_body r ;;
  at_position (size_at body) 8 (write_size_t host (size_at body) v).

(** Modelled from the spec: the body of [get_user_data] is not in the header.
    "Get the position in the context of the first byte of memory we manage":
    user data starts right after the header. *)
Definition get_user_data (r : ref) : Z := wrap64 (position r + sizeof_body_t).

(** Modelled from the spec: the body of [attach] is not in the header.
    "Attach this block to the free list, between the given blocks, which may
    be null." *)
Definition attach (host : byte_order) (this left right : ref) : M MappingContext unit :=
  set_prev host this left ;;;
  (if base_ref_t.to_bool left then set_next host left this else ret tt) ;;;
  set_next host this right ;;;
  (if base_ref_t.to_bool right then set_prev host right this else ret tt).

(** Modelled from the spec: the body of [detach] is not in the header.
    "Remove this block from the free list. Returns the blocks before and
    after it, which is has wired together. If this was the first or last
    block (or both), the appropriate return value will be a null ref."
    The block's own [prev] and [next] are nulled. *)
Definition detach (host : byte_order) (this : ref) : M MappingContext (ref * ref) :=
  before <- get_prev host this ;;
  after <- get_next host this ;;
  (if base_ref_t.to_bool before then set_next host before after else ret tt) ;;;
  (if base_ref_t.to_bool after then set_prev host after before else ret tt) ;;;
  set_prev host this base_ref_t.null ;;;
  set_next host this base_ref_t.null ;;;
  ret (before, after).

(** Modelled from the spec: the body of [split] is not in the header.
    "Split the block, keeping first_bytes bytes and giving the rest to a new
    subsequent block, which is wired up and returned": the block's user
    region shrinks to [first_bytes], a new header is written immediately
    after it carrying the remainder of the original size minus the header
    overhead, and the new block is spliced in after this one. *)
Definition split (host : byte_order) (this : ref) (first_bytes : Z) : M MappingContext ref :=
  old_size <- get_block_size host this ;;
  set_block_size host this first_bytes ;;;
  let second := base_ref_t.make (wrap64 (get_user_data this + first_bytes)) in
  construct_body host (position second) ;;;
  set_block_size host second (wrap64 (old_size - first_bytes - sizeof_body_t)) ;;;
  after <- get_next host this ;;
  attach host second this after ;;;
  ret second.

End ArenaAllocatorBlockRef.

(** ** [ArenaAllocatorRef<T>]: the allocator on top of the byte array

    [struct body_t { offset_to first_free; offset_to last_free; }] sits at
    the allocator's position, which its constructor declares to be 0.
    [sizeof_T] is [sizeof(T)] of the template argument and [fuel] bounds the
    iterations of each loop. *)

Module ArenaAllocatorRef.

Import ArenaAllocatorBlockRef.

Definition sizeof_body_t : Z := 16.
Definition first_free_at (body : Z) : Z := body.
Definition last_free_at (body : Z) : Z := body + 8.

(** [reserved_space = sizeof(body_t) + sizeof(ArenaAllocatorBlockRef::body_t)]. *)
Definition reserved_space : Z := sizeof_body_t + ArenaAllocatorBlockRef.sizeof_body_t.

(** [ArenaAllocatorRef(MappingContext* context)]. *)
Definition construct (host : byte_order) : M MappingContext ref :=
  sz <- get_size ;;
  (if sz <? sizeof_body_t then
     call_resize sizeof_body_t ;;;
     set_size sizeof_body_t ;;;
     offset_to.construct host (first_free_at 0) ;;;
     offset_to.construct host (last_free_at 0)
   else ret tt) ;;;
  ret (base_ref_t.make 0).

(** The scan of [allocate]:
    [while (found && found.size() < user_bytes) found = found.get_next();] *)
Fixpoint first_fit (host : byte_order) (fuel : nat) (found : ref) (user_bytes : Z)
  : M MappingContext ref :=
  match fuel with
  | O => out_of_fuel
  | S fuel' =>
      if base_ref_t.to_bool found then
        sz <- get_block_size host found ;;
        if sz <? user_bytes then
          next <- get_next host found ;;
          first_fit host fuel' next user_bytes
        else ret found
      else ret found
  end.

(** The branch of [allocate] taken when no block was found,
    [if (!found) { ... }]: the arena grows and a new block is made at the
    old end. *)
Definition grow (host : byte_order) (this : ref) (user_bytes block_bytes : Z)
  : M MappingContext ref :=
  new_free <- get_size ;;
  let new_bytes := Z.max new_free block_bytes in
  call_resize (wrap64 (new_free + new_bytes)) ;;;
  set_size (wrap64 (new_free + new_bytes)) ;;;
  body <- base_ref_t.get_body this ;;
  construct_body host new_free ;;;
  let found := base_ref_t.make new_free in
  set_block_size host found user_bytes ;;;
  offset_to.assign host (first_free_at body) found ;;;
  offset_to.assign host (last_free_at body) found ;;;
  ret found.

(** The rest of [allocate], from "Now we can allocate memory.": split the
    block when it is larger than needed, take it off the free list and give
    out the position of its data. *)
Definition hand_out (host : byte_order) (body : Z) (found : ref) (user_bytes block_bytes : Z)
  : M MappingContext Z :=
  found_size <- get_block_size host found ;;
  (if block_bytes <? found_size then
     second <- split host found user_bytes ;;
     was_last <- offset_to.eqb host (last_free_at body) found ;;
     if was_last : bool then offset_to.assign host (last_free_at body) second else ret tt
   else ret tt) ;;;
  connected <- detach host found ;;
  was_first <- offset_to.eqb host (first_free_at body) found ;;
  (if was_first : bool
   then offset_to.assign host (first_free_at body) (fst connected) else ret tt) ;;;
  was_last <- offset_to.eqb host (last_free_at body) found ;;
  (if was_last : bool
   then offset_to.assign host (last_free_at body) (snd connected) else ret tt) ;;;
  ret (get_user_data found).

(** What [allocate] does once the scan has ended at [found]. *)
Definition allocate_found (host : byte_order) (this : ref) (body : Z) (found : ref)
  (user_bytes block_bytes : Z) : M MappingContext Z :=
  found <- (if negb (base_ref_t.to_bool found)
            then grow host this user_bytes block_bytes
            else ret found) ;;
  hand_out host body found user_bytes block_bytes.

(** [ArenaAllocatorRef<T>::allocate(size_type n, const_pointer hint)]; the
    hint is not used. *)
Definition allocate (host : byte_order) (sizeof_T : Z) (fuel : nat) (this : ref) (n : Z)
  : M MappingContext Z :=
  body <- base_ref_t.get_body this ;;
  let user_bytes := wrap64 (n * sizeof_T) in
  let block_bytes := wrap64 (user_bytes + ArenaAllocatorBlockRef.sizeof_body_t) in
  found <- offset_to.get host (first_free_at body) ;;
  found <- first_fit host fuel found user_bytes ;;
  allocate_found host this body found user_bytes block_bytes.

(** [ArenaAllocatorRef<T>::deallocate(pointer p, size_type n)] (l.1284-1331)
    is not embedded. Its statements
    [ArenaAllocatorBlockRef right = body.first_free;] and
    [left = body.last_free;] initialise and assign a reference from an
    [offset_to<ArenaAllocatorBlockRef>], for which the header declares no
    conversion ([allocate] writes [body->first_free.get(this->context)]), so
    the member function cannot be instantiated and no program calls it. *)

End ArenaAllocatorRef.

(** ** Reading the free list of a state *)

(** The blocks met from [r] along [next]; [None] when a header lies outside
    the context or the walk has not reached a null reference within [fuel]
    steps. *)
Fixpoint walk_next (host : byte_order) (fuel : nat) (r : ref) (c : MappingContext)
  : option (list Z) :=
  match fuel with
  | O => if base_ref_t.to_bool r then None else Some []
  | S fuel' =>
      if base_ref_t.to_bool r then
        match ArenaAllocatorBlockRef.get_next host r c with
        | (Ret next, _) => option_map (cons (position r)) (walk_next host fuel' next c)
        | _ => None
        end
      else Some []
  end.

(** The free list as [allocate] scans it: from [first_free] along [next]. *)
Definition free_list (host : byte_order) (fuel : nat) (c : MappingContext) : option (list Z) :=
  match offset_to.get host (ArenaAllocatorRef.first_free_at 0) c with
  | (Ret r, _) => walk_next host fuel r c
  | _ => None
  end.

(** The cell of eight bytes at position [p] of a context as a number, and
    the store of a number into it. *)
Definition load64 (c : MappingContext) (p : Z) : Z := read64 (bytes c) p.
Definition store64 (c : MappingContext) (p : Z) (v : Z) : MappingContext :=
  with_bytes c (write64 (bytes c) p v).

(** What the pointer cell at position [self] refers to, the offset that
    makes it refer to [other], and its comparison with a reference, all
    read off the cell. *)
Definition ptr_target (c : MappingContext) (self : Z) : ref :=
  if load64 c self =? SIZE_MAX then base_ref_t.null
  else base_ref_t.make (wrap64 (self + load64 c self)).

Definition ptr_encode (self : Z) (other : ref) : Z :=
  if context other then wrap64 (position other - self) else SIZE_MAX.

Definition ptr_eqb (c : MappingContext) (self : Z) (other : ref) : bool :=
  if (load64 c self =? SIZE_MAX) || negb (context other)
  then (load64 c self =? SIZE_MAX) && negb (context other)
  else wrap64 (self + load64 c self) =? position other.

(** [free_chain c r l]: from [r], following [next], exactly the blocks at
    the positions [l] are met, every header lies inside the context, and the
    walk ends at a null reference. *)
Inductive free_chain (c : MappingContext) : ref -> list Z -> Prop :=
| free_chain_nil : free_chain c base_ref_t.null []
| free_chain_cons (p : Z) (l : list Z) :
    in_context c p 24 = true ->
    free_chain c (ptr_target c (p + 8)) l ->
    free_chain c (base_ref_t.make p) (p :: l).

(** The reference a scan stops at when [rest] is what remains of the list. *)
Definition head_ref (rest : list Z) : ref :=
  match rest with
  | [] => base_ref_t.null
  | b :: _ => base_ref_t.make b
  end.

(** A store that happens only under a condition of the code. *)
Definition store_if (b : bool) (c : MappingContext) (p v : Z) : MappingContext :=
  if b then store64 c p v else c.

(** The states [attach], [detach] and [split] leave behind when every header
    they touch lies inside the context, written as stores into cells. *)
Definition attach_state (c : MappingContext) (p : Z) (left right : ref) : MappingContext :=
  let c1 := store64 c p (ptr_encode p left) in
  let c2 := store_if (context left) c1 (position left + 8)
              (ptr_encode (position left + 8) (base_ref_t.make p)) in
  let c3 := store64 c2 (p + 8) (ptr_encode (p + 8) right) in
  store_if (context right) c3 (position right)
    (ptr_encode (position right) (base_ref_t.make p)).

Definition detach_state (c : MappingContext) (p : Z) : MappingContext :=
  let before := ptr_target c p in
  let after := ptr_target c (p + 8) in
  let c1 := store_if (context before) c (position before + 8)
              (ptr_encode (position before + 8) after) in
  let c2 := store_if (context after) c1 (position after)
              (ptr_encode (position after) before) in
  store64 (store64 c2 p SIZE_MAX) (p + 8) SIZE_MAX.

Definition split_header_state (c : MappingContext) (p first_bytes : Z) : MappingContext :=
  let old_size := load64 c (p + 16) in
  let second := wrap64 (wrap64 (p + 24) + first_bytes) in
  let c1 := store64 c (p + 16) first_bytes in
  let c2 := store64 (store64 (store64 c1 second SIZE_MAX) (second + 8) SIZE_MAX)
              (second + 16) 0 in
  store64 c2 (second + 16) (wrap64 (old_size - first_bytes - 24)).

Definition split_state (c : MappingContext) (p first_bytes : Z) : MappingContext :=
  let second := wrap64 (wrap64 (p + 24) + first_bytes) in
  let c3 := split_header_state c p first_bytes in
  attach_state c3 second (base_ref_t.make p) (ptr_target c3 (p + 8)).

(** [r] is null, or its header lies in the context behind the allocator's
    own body and shares no byte with the block at [p] of size [s]. *)
Definition neighbour_ok (c : MappingContext) (p s : Z) (r : ref) : Prop :=
  context r = true ->
  16 <= position r /\ position r + 24 <= size c /\
  (position r + 24 <= p \/ p + 24 + s <= position r).

(** The block at [p] lies in the context behind the allocator's body, and
    so do the headers of its two list neighbours, apart from the block. *)
Definition block_ok (c : MappingContext) (p : Z) : Prop :=
  16 <= p /\ p + 24 + load64 c (p + 16) <= size c /\ size c < 2 ^ 64 /\
  neighbour_ok c p (load64 c (p + 16)) (ptr_target c p) /\
  neighbour_ok c p (load64 c (p + 16)) (ptr_target c (p + 8)).

(** The state the grow branch of [allocate] leaves behind when the callback
    answers with base address [b]: the context has [new_size] bytes, and a
    header for the new block stands at the old end [new_free]. *)
Definition grow_state (c : MappingContext) (b new_size user_bytes : Z) : MappingContext :=
  let new_free := size c in
  let c2 := with_size (with_base_address c b) new_size in
  let c3 := store64 (store64 (store64 c2 new_free SIZE_MAX) (new_free + 8) SIZE_MAX)
              (new_free + 16) 0 in
  let c4 := store64 c3 (new_free + 16) user_bytes in
  let found := base_ref_t.make new_free in
  store64 (store64 c4 0 (ptr_encode 0 found)) 8 (ptr_encode 8 found).

(** A context fresh from the operating system: nothing mapped yet, a
    callback that always succeeds, zeroed bytes. *)
Definition empty_context : MappingContext :=
  {| base_address := 0; size := 0; resize := fun _ => Some 4096; bytes := fun _ => Byte.x00 |}.

(** ** [yomo::Pointer<T>] and [yomo::UniqueMappedPointer<T>]

    Both talk to the static functions of [yomo::Manager], which the header
    only declares; they are taken as parameters. *)

Module yomo.

Module Pointer.
Section WithManager.

Variable host : byte_order.
(** [Manager::get_position_in_same_chain(here, address)] and
    [Manager::get_address_in_same_chain(here, position)]. *)
Variable get_position_in_same_chain : Z -> Z -> outcome Z.
Variable get_address_in_same_chain : Z -> Z -> outcome Z.

(** The member [big_endian<size_t> position] of the pointer at [this]. *)
Definition position (this : Z) : M memory Z := read_size_t host this.

(** [Pointer() = default], with the member initializer
    [position = std::numeric_limits<size_t>::max()]. *)
Definition construct (this : Z) : M memory unit := write_size_t host this SIZE_MAX.

(** [Pointer<T>::operator bool () const]. *)
Definition to_bool (this : Z) : M memory bool :=
  pos <- position this ;;
  ret (negb (pos =? SIZE_MAX)).

(** [Pointer<T>::operator=(T* addr)]; it returns [*this]. *)
Definition assign (this : Z) (addr : Z) : M memory Z :=
  (if addr =? 0
   then write_size_t host this SIZE_MAX
   else
     pos <- lift (get_position_in_same_chain this addr) ;;
     write_size_t host this pos) ;;;
  ret this.

(** [Pointer<T>::Pointer(T* destination)] is [*this = destination]. *)
Definition of_destination (this : Z) (destination : Z) : M memory unit :=
  construct this ;;;
  assign this destination ;;;
  ret tt.

(** [Pointer<T>::get() const]. *)
Definition get (this : Z) : M memory Z :=
  pos <- position this ;;
  if pos =? SIZE_MAX
  then ret 0
  else lift (get_address_in_same_chain this pos).

(** [Pointer<T>::operator+(size_t items) const]. *)
Definition plus (sizeof_T : Z) (this : Z) (items : Z) : M memory Z :=
  p <- get this ;;
  ret (wrap64 (p + items * sizeof_T)).

End WithManager.
End Pointer.

Module UniqueMappedPointer.
Section WithManager.

(** The process-wide state of [yomo::Manager] and the functions the handle
    calls on it. *)
Variable manager : Type.
Variable create_chain : string -> M manager Z.
Variable create_chain_fd : Z -> string -> M manager Z.
Variable get_dissociated_chain : Z -> M manager Z.
Variable get_associated_chain : Z -> Z -> M manager Z.
Variable destroy_chain : Z -> M manager unit.
Variable allocate_from : Z -> Z -> M manager Z.
Variable find_first_allocation : Z -> Z -> M manager Z.

(** [Manager::NO_CHAIN]. *)
Definition NO_CHAIN : Z := 0.

(** The handle's only member is [chain]; it runs against the Manager. *)
Record state : Type := { mgr : manager; chain : Z }.

Definition on_manager {A : Type} (op : M manager A) : M state A :=
  fun s => let (r, m') := op (mgr s) in (r, {| mgr := m'; chain := chain s |}).
Definition get_chain : M state Z := fun s => (Ret (chain s), s).
Definition set_chain (ch : Z) : M state unit :=
  fun s => (Ret tt, {| mgr := mgr s; chain := ch |}).

(** [operator bool]. *)
Definition to_bool : M state bool :=
  ch <- get_chain ;;
  ret (negb (ch =? NO_CHAIN)).

(** [get()], for a [T] of [sizeof_T] bytes. *)
Definition get (sizeof_T : Z) : M state Z :=
  ch <- get_chain ;;
  if ch =? NO_CHAIN then ret 0
  else on_manager (find_first_allocation ch sizeof_T).

(** [reset()]. *)
Definition reset : M state unit :=
  ch <- get_chain ;;
  if negb (ch =? NO_CHAIN) then
    on_manager (destroy_chain ch) ;;;
    set_chain NO_CHAIN
  else ret tt.

(** [construct(const std::string& prefix, Args&&... constructor_args)], up
    to the placement [new] that runs the constructor of [T] on the returned
    address. *)
Definition construct (sizeof_T : Z) (prefix : string) : M state Z :=
  reset ;;;
  ch <- on_manager (create_chain prefix) ;;
  set_chain ch ;;;
  on_manager (allocate_from ch sizeof_T).

(** [load(int fd, const std::string& prefix)]. *)
Definition load (fd : Z) (prefix : string) : M state unit :=
  reset ;;;
  ch <- on_manager (create_chain_fd fd prefix) ;;
  set_chain ch.

(** [dissociate()]. *)
Definition dissociate : M state unit :=
  ch <- get_chain ;;
  if ch =? NO_CHAIN
  then throw (runtime_error "Cannot dissociate a null object")
  else
    new_chain <- on_manager (get_dissociated_chain ch) ;;
    on_manager (destroy_chain ch) ;;;
    set_chain new_chain.

(** [save(int fd)]. *)
Definition save (fd : Z) : M state unit :=
  ch <- get_chain ;;
  if ch =? NO_CHAIN
  then throw (runtime_error "Cannot save a null object")
  else
    new_chain <- on_manager (get_associated_chain ch fd) ;;
    on_manager (destroy_chain ch) ;;;
    set_chain new_chain.

End WithManager.
End UniqueMappedPointer.

End yomo.

(** ** Scenarios

    Contexts a program can hand to the allocator: a mapping that [allocate]
    has filled, on a little-endian host and with [sizeof(T) = 1], in which
    some blocks have been put on the free list by writing the pointers of
    the list into the mapping. *)

Definition the_allocator : ref := base_ref_t.make 0.

Definition alloc (n : Z) : M MappingContext Z :=
  ArenaAllocatorRef.allocate LittleEndian 1 8 the_allocator n.

(** The reference to the last block of a list. *)
Definition last_ref (blocks : list Z) : ref := head_ref (rev blocks).

(** The [prev] and [next] pointers of the blocks with headers at [blocks],
    linked in this order behind [before]. *)
Fixpoint link_blocks (c : MappingContext) (before : ref) (blocks : list Z) : MappingContext :=
  match blocks with
  | [] => c
  | b :: rest =>
      let c1 := store64 c b (ptr_encode b before) in
      let c2 := store64 c1 (b + 8) (ptr_encode (b + 8) (head_ref rest)) in
      link_blocks c2 (base_ref_t.make b) rest
  end.

(** The context [c] with exactly the blocks at [blocks] on the free list:
    linked to each other in this order, the first one as [first_free] and
    the last one as [last_free]. *)
Definition with_free_list (c : MappingContext) (blocks : list Z) : MappingContext :=
  let c1 := link_blocks c base_ref_t.null blocks in
  store64 (store64 c1 0 (ptr_encode 0 (head_ref blocks))) 8 (ptr_encode 8 (last_ref blocks)).

Definition set_free_list (blocks : list Z) : M MappingContext unit :=
  fun c => (Ret tt, with_free_list c blocks).

(** One block of [n] bytes allocated, at position 40 behind its header at
    16, and then put on the free list. *)
Definition one_free_block (n : Z) : M MappingContext Z :=
  ArenaAllocatorRef.construct LittleEndian ;;;
  a <- alloc n ;;
  set_free_list [16] ;;;
  ret a.

(** Three blocks allocated, with headers at 16, 48 and 96; the first and
    the third are put on the free list. *)
Definition two_free_blocks : M MappingContext (Z * Z * Z) :=
  ArenaAllocatorRef.construct LittleEndian ;;;
  a <- alloc 8 ;;
  b <- alloc 8 ;;
  d <- alloc 100 ;;
  set_free_list [16; 96] ;;;
  ret (a, b, d).


(** ** What a call leaves of the context *)

(** [c'] has the size, the base address and the callback of [c]. *)
Definition same_frame (c c' : MappingContext) : Prop :=
  size c' = size c /\ base_address c' = base_address c /\ resize c' = resize c.

(** A call that leaves the frame of the context alone, however it ends. *)
Definition keeps_frame {A : Type} (m : M MappingContext A) : Prop :=
  forall c, same_frame c (snd (m c)).

(** ** Free lists of at most one block, cell by cell *)

(** The allocator's body at 0 lies in the context and both of its pointers
    are null. *)
Definition empty_free_list (c : MappingContext) : Prop :=
  16 <= size c < 2 ^ 64 /\ load64 c 0 = SIZE_MAX /\ load64 c 8 = SIZE_MAX.

(** The block at [p], of [s] bytes, lies in the context, is the head and the
    tail of the free list, and has no neighbour. *)
Definition sole_free_block (c : MappingContext) (p s : Z) : Prop :=
  16 <= p /\ 0 <= s /\ p + 24 + s <= size c /\ size c < 2 ^ 64 /\
  load64 c 0 = p /\ load64 c 8 = p - 8 /\
  load64 c p = SIZE_MAX /\ load64 c (p + 8) = SIZE_MAX /\ load64 c (p + 16) = s.

(** The state [hand_out] leaves when it gives out the only free block whole,
    as stores into cells. *)
Definition taken_state (c : MappingContext) (p : Z) : MappingContext :=
  store64 (store64 (store64 (store64 c p SIZE_MAX) (p + 8) SIZE_MAX) 0 SIZE_MAX) 8 SIZE_MAX.

(** ** [ArenaRefAllocatorRef<ref_t>] and the allocating constructor of [base_ref_t] *)

(** [std::to_string] of a [size_t]. *)
Definition to_string (z : Z) : string := NilZero.string_of_int (Z.to_int z).

Module ArenaRefAllocatorRef.

(** [this->context->size]; the read has no meaning through a null context
    pointer. *)
Definition context_size (this : ref) : M MappingContext Z :=
  if context this then get_size else undefined out_of_bounds.

(** [ArenaRefAllocatorRef<ref_t>::connect_or_create_root()]. [sizeof_body] is
    [sizeof(typename ref_t::body_t)], the item size of the
    [ArenaAllocatorRef] it derives from. *)
Definition connect_or_create_root (host : byte_order) (sizeof_body : Z) (fuel : nat)
  (this : ref) : M MappingContext ref :=
  let root_position := ArenaAllocatorRef.reserved_space in
  sz <- context_size this ;;
  (if sz <? root_position then
     got_position <- ArenaAllocatorRef.allocate host sizeof_body fuel this 1 ;;
     if negb (got_position =? root_position) then
       throw (runtime_error ("Allocated root at " ++ to_string got_position ++
                             " instead of " ++ to_string root_position))
     else ret tt
   else ret tt) ;;;
  sz <- context_size this ;;
  if wrap64 (root_position + sizeof_body) <=? sz then
    ret {| context := context this; position := root_position |}
  else
    throw (runtime_error ("Could not find root object of size " ++ to_string sizeof_body ++
                          " in context of size " ++ to_string sz ++
                          " after header of size " ++ to_string root_position)).

End ArenaRefAllocatorRef.

(** [base_ref_t<Derived>::base_ref_t(MappingContext* context)]: "Grab an
    allocator", "Allocate one body". [sizeof_body] is
    [sizeof(typename Derived::body_t)]. *)
Definition base_ref_t_construct (host : byte_order) (sizeof_body : Z) (fuel : nat)
  : M MappingContext ref :=
  alloc <- ArenaAllocatorRef.construct host ;;
  position <- ArenaAllocatorRef.allocate host sizeof_body fuel alloc 1 ;;
  ret (base_ref_t.make position).


(** ** [MappedVectorRef<item_t>]: reading a vector kept in the context

    [struct body_t { big_endian<size_t> length; big_endian<size_t>
    reserved_length; offset_ptr<item_t> first; }]. *)

Module MappedVectorRef.

Definition length_at (body : Z) : Z := body.
Definition reserved_length_at (body : Z) : Z := body + 8.
Definition first_at (body : Z) : Z := body + 16.

(** [MappedVectorRef<item_t>::size() const]. *)
Definition size (host : byte_order) (this : ref) : M MappingContext Z :=
  body <- base_ref_t.get_body this ;;
  at_position (length_at body) 8 (read_size_t host (length_at body)).

(** [MappedVectorRef<item_t>::at(size_t index)], for an [item_t] of
    [sizeof_item] bytes; the reference it returns is given as the position
    of the item. *)
Definition at_ (host : byte_order) (sizeof_item : Z) (this : ref) (index : Z)
  : M MappingContext Z :=
  body <- base_ref_t.get_body this ;;
  n <- size host this ;;
  if n <=? index then
    n' <- size host this ;;
    throw (runtime_error ("Cannot get " ++ to_string index ++
                          " in vector of length " ++ to_string n'))
  else
    at_position (first_at body) 8 (offset_ptr.plus host sizeof_item (first_at body) index).

End MappedVectorRef.

(** * [packed_structs.cpp]: the iterator of [PackedSet]

    The table of a set is a packed vector of 64-bit entries in which 0 marks
    an empty slot; it is given as the list of its entries. The class itself
    is declared in a header that is not part of this development, so the
    value its member [i] starts from in the one-argument constructor is an
    argument [i0] here. *)

Module PackedSet.

(** An iterator: the set it walks over, by address, and the slot it is at. *)
Record iterator : Type := { iteratee : Z; i : Z }.

(** [table.size()] and [table.get(i)] for a slot inside the table. *)
Definition table_size (table : list Z) : Z := Z.of_nat (List.length table).
Definition table_get (table : list Z) (i : Z) : Z := nth (Z.to_nat i) table 0.

(** [while (i < iteratee->table.size() && iteratee->table.get(i) == 0) ++i;]
    with [fuel] bounding the iterations. *)
Fixpoint skip_empty (fuel : nat) (table : list Z) (i : Z) : outcome Z :=
  match fuel with
  | O => OutOfFuel
  | S fuel' =>
      if (i <? table_size table) && (table_get table i =? 0)
      then skip_empty fuel' table (wrap64 (i + 1))
      else Ret i
  end.

(** [PackedSet::iterator::iterator(const PackedSet* iteratee)]. *)
Definition construct (fuel : nat) (table : list Z) (this_set : Z) (i0 : Z) : outcome iterator :=
  obind (skip_empty fuel table i0) (fun j => Ret {| iteratee := this_set; i := j |}).

(** [PackedSet::iterator::iterator(const PackedSet* iteratee, size_t i)]. *)
Definition construct_at (this_set : Z) (i : Z) : iterator :=
  {| iteratee := this_set; i := i |}.

(** [PackedSet::begin() const] and [PackedSet::end() const]. *)
Definition begin (fuel : nat) (table : list Z) (this_set : Z) (i0 : Z) : outcome iterator :=
  construct fuel table this_set i0.
Definition end_ (table : list Z) (this_set : Z) : iterator :=
  construct_at this_set (table_size table).

(** [PackedSet::iterator::operator++()]:
    [do { ++i; } while (i < iteratee->table.size() && iteratee->table.get(i) == 0);] *)
Definition incr (fuel : nat) (table : list Z) (it : iterator) : outcome iterator :=
  obind (skip_empty fuel table (wrap64 (i it + 1)))
    (fun j => Ret {| iteratee := iteratee it; i := j |}).

(** [operator==] and [operator!=]. *)
Definition eqb (a b : iterator) : bool := (iteratee a =? iteratee b) && (i a =? i b).
Definition neqb (a b : iterator) : bool := negb (eqb a b).

(** The slots a loop [for (it = first; it != end(); ++it)] stops at, for at
    most [steps] rounds. *)
Fixpoint visited (steps fuel : nat) (table : list Z) (it : iterator) : outcome (list Z) :=
  match steps with
  | O => OutOfFuel
  | S steps' =>
      if neqb it (end_ table (iteratee it)) then
        obind (incr fuel table it) (fun next =>
        obind (visited steps' fuel table next) (fun rest =>
        Ret (i it :: rest)))
      else Ret []
  end.

(** The slots of a table that hold an entry, from slot [from] on, in order. *)
Fixpoint occupied_from (from : Z) (table : list Z) : list Z :=
  match table with
  | [] => []
  | x :: rest =>
      if x =? 0 then occupied_from (from + 1) rest
      else from :: occupied_from (from + 1) rest
  end.

End PackedSet.

(** ** [CompatVector<T, Alloc>]

    The vector is modelled for the default [Alloc = std::allocator<T>],
    whose pointer type is [T*]: addresses are numbers and 0 is [nullptr].
    The allocator and the constructors and destructor of [T] act on a heap
    that the vector does not look into; they are parameters. *)

Module CompatVector.
Section WithAllocator.

Variable heap : Type.
(** [alloc.allocate(n)] and [alloc.deallocate(p, n)]. *)
Variable allocate : Z -> M heap Z.
Variable deallocate : Z -> Z -> M heap unit.
(** [new (p) T()], [new (dst) T(std::move( *src))] and [p->~T()]. *)
Variable construct_item : Z -> M heap unit.
Variable move_item : Z -> Z -> M heap unit.
Variable destroy_item : Z -> M heap unit.
Variable sizeof_T : Z.

Definition RESIZE_FACTOR : Z := 2.

(** The members [length], [reserved_length] and [first], next to the heap. *)
Record state : Type := { length : Z; reserved_length : Z; first : Z; hp : heap }.

Definition on_heap {A : Type} (op : M heap A) : M state A :=
  fun s => let (r, h') := op (hp s) in
           (r, {| length := length s; reserved_length := reserved_length s;
                  first := first s; hp := h' |}).
Definition get_length : M state Z := fun s => (Ret (length s), s).
Definition get_reserved_length : M state Z := fun s => (Ret (reserved_length s), s).
Definition get_first : M state Z := fun s => (Ret (first s), s).
Definition set_length (v : Z) : M state unit :=
  fun s => (Ret tt, {| length := v; reserved_length := reserved_length s;
                       first := first s; hp := hp s |}).
Definition set_reserved_length (v : Z) : M state unit :=
  fun s => (Ret tt, {| length := length s; reserved_length := v;
                       first := first s; hp := hp s |}).
Definition set_first (v : Z) : M state unit :=
  fun s => (Ret tt, {| length := length s; reserved_length := reserved_length s;
                       first := v; hp := hp s |}).

(** [s'] has the three members of [s], and a call that leaves the members
    alone however it ends. *)
Definition same_members (s s' : state) : Prop :=
  length s' = length s /\ reserved_length s' = reserved_length s /\ first s' = first s.

Definition keeps_members {A : Type} (m : M state A) : Prop :=
  forall s, same_members s (snd (m s)).

(** [p + i] for a [T* p]. *)
Definition item (p i : Z) : Z := wrap64 (p + i * sizeof_T).

(** [for (size_t i = from; i < to; i++) body(i)], as [count] rounds from
    [from]. *)
Fixpoint for_each (count : nat) (from : Z) (body : Z -> M state unit) : M state unit :=
  match count with
  | O => ret tt
  | S count' => body from ;;; for_each count' (from + 1) body
  end.
Definition for_range (from to : Z) (body : Z -> M state unit) : M state unit :=
  for_each (Z.to_nat (to - from)) from body.

(** [CompatVector<T, Alloc>::~CompatVector()]. *)
Definition destroy : M state unit :=
  p <- get_first ;;
  if negb (p =? 0) then
    n <- get_length ;;
    for_range 0 n (fun i => on_heap (destroy_item (item p i))) ;;;
    r <- get_reserved_length ;;
    on_heap (deallocate p r)
  else ret tt.

(** [size() const]. *)
Definition size : M state Z := get_length.

(** [reserve(size_t new_reserved_length)]. *)
Definition reserve (new_reserved_length : Z) : M state unit :=
  old_first <- get_first ;;
  old_reserved_length <- get_reserved_length ;;
  if old_reserved_length <? new_reserved_length then
    new_first <- on_heap (allocate new_reserved_length) ;;
    set_reserved_length new_reserved_length ;;;
    n <- size ;;
    for_range 0 n (fun i => on_heap (move_item (item new_first i) (item old_first i))) ;;;
    for_range 0 n (fun i => on_heap (destroy_item (item old_first i))) ;;;
    (if negb (old_first =? 0) then on_heap (deallocate old_first old_reserved_length)
     else ret tt) ;;;
    set_first new_first
  else ret tt.

(** [resize(size_t new_size)]. *)
Definition resize (new_size : Z) : M state unit :=
  n <- size ;;
  if new_size =? n then ret tt
  else
    r <- get_reserved_length ;;
    (if r <? new_size
     then reserve (Z.max new_size (wrap64 (n * RESIZE_FACTOR)))
     else ret tt) ;;;
    p <- get_first ;;
    (if new_size <? n
     then for_range new_size n (fun i => on_heap (destroy_item (item p i)))
     else for_range n new_size (fun i => on_heap (construct_item (item p i)))) ;;;
    set_length new_size.

(** [clear()]. *)
Definition clear : M state unit :=
  resize 0 ;;;
  p <- get_first ;;
  (if negb (p =? 0) then
     r <- get_reserved_length ;;
     on_heap (deallocate p r)
   else ret tt) ;;;
  set_reserved_length 0.

(** [at(size_t index)], as the address of the item. *)
Definition at_ (index : Z) : M state Z :=
  n <- size ;;
  if n <=? index then
    throw (runtime_error ("Cannot get " ++ to_string index ++
                          " in vector of length " ++ to_string n))
  else
    p <- get_first ;;
    ret (item p index).

End WithAllocator.
End CompatVector.

(** * Properties *)

(** ** The monad *)

Lemma bind_ret_l {S A B : Type} (a : A) (k : A -> M S B) (s : S) :
  bind (ret a) k s = k a s.
Proof. reflexivity. Qed.

Lemma bind_Ret {S A B : Type} (m : M S A) (k : A -> M S B) (s s' : S) (a : A) :
  m s = (Ret a, s') -> bind m k s = k a s'.
Proof. intros H. unfold bind. rewrite H. reflexivity. Qed.

Lemma bind_assoc {S A B C : Type} (m : M S A) (k : A -> M S B) (h : B -> M S C) (s : S) :
  bind (bind m k) h s = bind m (fun a => bind (k a) h) s.
Proof.
  unfold bind. destruct (m s) as [[a | e | why | ] s']; reflexivity.
Qed.

(** Run the first call of a sequence, given the equation of its result. *)
Ltac run_with E :=
  cbv beta iota; rewrite ?bind_assoc; rewrite (bind_Ret _ _ _ _ _ E); cbv beta iota.

(** ** Integer casts and byte order *)

Lemma pow2_pos (n : Z) : 0 <= n -> 0 < 2 ^ n.
Proof. intros. apply Z.pow_pos_nonneg; lia. Qed.

Lemma bits_eq (T : int_type) : bits T = Z.of_nat (sizeof T) * 8.
Proof. unfold bits. lia. Qed.

Lemma cast_congr (T : int_type) (x y : Z) :
  x mod 2 ^ bits T = y mod 2 ^ bits T -> cast T x = cast T y.
Proof.
  unfold cast, to_unsigned. fold (bits T). intros ->. reflexivity.
Qed.

Lemma cast_mod (T : int_type) (x : Z) : cast T x mod 2 ^ bits T = x mod 2 ^ bits T.
Proof.
  unfold cast, to_unsigned. fold (bits T).
  assert (Hp : 0 < 2 ^ bits T) by (apply pow2_pos; unfold bits; lia).
  destruct (is_signed T && (2 ^ (bits T - 1) <=? x mod 2 ^ bits T)).
  - replace (x mod 2 ^ bits T - 2 ^ bits T)
      with (x mod 2 ^ bits T + (-1) * 2 ^ bits T) by lia.
    rewrite Z.mod_add by lia. apply Z.mod_mod. lia.
  - apply Z.mod_mod. lia.
Qed.

Lemma cast_in_range (T : int_type) (x : Z) :
  (0 < sizeof T)%nat -> in_range T x -> cast T x = x.
Proof.
  unfold in_range, int_min, int_max, cast, to_unsigned. fold (bits T).
  intros Hn Hx.
  assert (Hb : 1 <= bits T) by (unfold bits; lia).
  assert (Hp : 2 ^ bits T = 2 * 2 ^ (bits T - 1)).
  { replace (bits T) with (Z.succ (bits T - 1)) at 1 by lia.
    apply Z.pow_succ_r. lia. }
  assert (Hq : 0 < 2 ^ (bits T - 1)) by (apply pow2_pos; lia).
  destruct (is_signed T); cbn [andb].
  - destruct (Z.leb_spec (2 ^ (bits T - 1)) (x mod 2 ^ bits T)) as [Hle | Hlt].
    + destruct (Z.lt_ge_cases x 0) as [Hneg | Hpos].
      * replace x with (x + 2 ^ bits T + (-1) * 2 ^ bits T) at 1 by lia.
        rewrite Z.mod_add by lia. rewrite Z.mod_small by lia. lia.
      * rewrite Z.mod_small in Hle by lia. lia.
    + destruct (Z.lt_ge_cases x 0) as [Hneg | Hpos].
      * replace x with (x + 2 ^ bits T + (-1) * 2 ^ bits T) in Hlt at 1 by lia.
        rewrite Z.mod_add in Hlt by lia. rewrite Z.mod_small in Hlt by lia. lia.
      * apply Z.mod_small. lia.
  - apply Z.mod_small. lia.
Qed.

Lemma le_split_cast (T : int_type) (x : Z) :
  le_split (sizeof T) (cast T x) = le_split (sizeof T) x.
Proof.
  rewrite (le_split_mod (cast T x)), (le_split_mod x).
  rewrite <- !bits_eq, cast_mod. reflexivity.
Qed.

Lemma le_split_to_unsigned (n : nat) (x : Z) :
  le_split n (to_unsigned n x) = le_split n x.
Proof.
  unfold to_unsigned. rewrite (le_split_mod x).
  replace (8 * Z.of_nat n) with (Z.of_nat n * 8) by lia. reflexivity.
Qed.

(** Whatever the host, the bytes a cell of [n = sizeof(T)] bytes ends up
    with are the big-endian digits of the value. *)
Lemma stored_bytes_big_endian (host : byte_order) (T : int_type) (x : Z) :
  host_store host T (cast T (htobe host (sizeof T) (to_unsigned (sizeof T) x)))
  = rev (le_split (sizeof T) x).
Proof.
  destruct host; unfold host_store, htobe.
  - rewrite le_split_cast. unfold bswap.
    rewrite split_le_combine' by (rewrite length_rev, length_le_split; reflexivity).
    rewrite le_split_to_unsigned. reflexivity.
  - rewrite le_split_cast, le_split_to_unsigned. reflexivity.
Qed.

(** And the conversion back reads the bytes as big-endian digits. *)
Lemma loaded_value_big_endian (host : byte_order) (T : int_type) (bs : list byte) :
  List.length bs = sizeof T ->
  cast T (betoh host (sizeof T) (to_unsigned (sizeof T) (host_load host T bs)))
  = cast T (le_combine (rev bs)).
Proof.
  intros Hlen. destruct host; unfold host_load, betoh.
  - unfold bswap. rewrite le_split_to_unsigned, le_split_cast.
    rewrite split_le_combine' by assumption. reflexivity.
  - apply cast_congr. unfold to_unsigned.
    replace (8 * Z.of_nat (sizeof T)) with (bits T) by reflexivity.
    rewrite Z.mod_mod by (apply Z.pow_nonzero; unfold bits; lia).
    apply cast_mod.
Qed.

Lemma assign_supported (host : byte_order) (T : int_type) (x : Z) :
  supported T ->
  big_endian.assign host T x = Ret (rev (le_split (sizeof T) x)).
Proof.
  intros Hs. rewrite <- (stored_bytes_big_endian host T x).
  destruct T as [n [|]]; unfold supported in Hs; cbn [sizeof] in Hs;
    destruct Hs as [-> | [-> | ->]]; reflexivity.
Qed.

Lemma to_host_supported (host : byte_order) (T : int_type) (bs : list byte) :
  supported T -> List.length bs = sizeof T ->
  big_endian.to_host host T bs = Ret (cast T (le_combine (rev bs))).
Proof.
  intros Hs Hlen. rewrite <- (loaded_value_big_endian host T bs Hlen).
  destruct T as [n [|]]; unfold supported in Hs; cbn [sizeof] in Hs;
    destruct Hs as [-> | [-> | ->]]; reflexivity.
Qed.

(** ** Bytes and cells *)

Lemma load_bytes_length (m : memory) (a : Z) (n : nat) :
  List.length (load_bytes m a n) = n.
Proof. unfold load_bytes. rewrite length_map, length_seq. reflexivity. Qed.

Lemma load_bytes_ext (m m' : memory) (a : Z) (n : nat) :
  (forall x, a <= x < a + Z.of_nat n -> m' x = m x) ->
  load_bytes m' a n = load_bytes m a n.
Proof.
  intros H. unfold load_bytes. apply map_ext_in. intros i Hi.
  apply in_seq in Hi. apply H. lia.
Qed.

Lemma nth_load_bytes (m : memory) (a : Z) (n i : nat) (d : byte) :
  (i < n)%nat -> nth i (load_bytes m a n) d = m (a + Z.of_nat i).
Proof.
  intros Hi. unfold load_bytes.
  apply nth_error_nth.
  rewrite nth_error_map, nth_error_seq.
  destruct (Nat.ltb_spec i n); [reflexivity | lia].
Qed.

Lemma load_store_same (m : memory) (a : Z) (bs : list byte) :
  load_bytes (store_bytes m a bs) a (List.length bs) = bs.
Proof.
  apply nth_ext with (d := Byte.x00) (d' := Byte.x00).
  - apply load_bytes_length.
  - intros i Hi. rewrite load_bytes_length in Hi.
    rewrite nth_load_bytes by assumption. unfold store_bytes.
    replace ((a <=? a + Z.of_nat i) && (a + Z.of_nat i <? a + Z.of_nat (List.length bs)))
      with true by (symmetry; apply andb_true_iff; split; [apply Z.leb_le | apply Z.ltb_lt]; lia).
    f_equal. lia.
Qed.

Lemma load_store_other (m : memory) (a b : Z) (bs : list byte) (n : nat) :
  b + Z.of_nat n <= a \/ a + Z.of_nat (List.length bs) <= b ->
  load_bytes (store_bytes m a bs) b n = load_bytes m b n.
Proof.
  intros H. apply load_bytes_ext. intros x Hx. unfold store_bytes.
  destruct (Z.leb_spec a x); destruct (Z.ltb_spec x (a + Z.of_nat (List.length bs)));
    cbn [andb]; try reflexivity; lia.
Qed.

Lemma with_bytes_same (c : MappingContext) : with_bytes c (bytes c) = c.
Proof. destruct c; reflexivity. Qed.

Lemma size_t_supported : supported size_t.
Proof. right; right; reflexivity. Qed.

Lemma cast_size_t (x : Z) : 0 <= x < 2 ^ 64 -> cast size_t x = x.
Proof.
  intros H. apply cast_in_range.
  - cbn. lia.
  - unfold in_range, int_min, int_max. cbn. lia.
Qed.

Lemma be64_bound (bs : list byte) :
  List.length bs = 8%nat -> 0 <= le_combine (rev bs) < 2 ^ 64.
Proof.
  intros H. pose proof (le_combine_bound (rev bs)) as Hb.
  rewrite length_rev, H in Hb. exact Hb.
Qed.

Lemma load64_range (c : MappingContext) (p : Z) : 0 <= load64 c p < 2 ^ 64.
Proof. apply be64_bound, load_bytes_length. Qed.

Lemma read_size_t_eq (host : byte_order) (a : Z) (m : memory) :
  read_size_t host a m = (Ret (read64 m a), m).
Proof.
  unfold read_size_t, read64.
  rewrite to_host_supported by (apply size_t_supported || apply load_bytes_length).
  rewrite cast_size_t by (apply be64_bound, load_bytes_length). reflexivity.
Qed.

Lemma write_size_t_eq (host : byte_order) (a v : Z) (m : memory) :
  write_size_t host a v m = (Ret tt, write64 m a v).
Proof.
  unfold write_size_t. rewrite assign_supported by apply size_t_supported. reflexivity.
Qed.

Lemma size_store64 (c : MappingContext) (p v : Z) : size (store64 c p v) = size c.
Proof. reflexivity. Qed.

Lemma in_context_store64 (c : MappingContext) (p v q n : Z) :
  in_context (store64 c p v) q n = in_context c q n.
Proof. reflexivity. Qed.

Lemma read64_write64_same (m : memory) (a v : Z) :
  read64 (write64 m a v) a = wrap64 v.
Proof.
  unfold read64, write64.
  replace 8%nat with (List.length (rev (le_split 8 v))) at 1
    by (rewrite length_rev, length_le_split; reflexivity).
  rewrite load_store_same, rev_involutive, le_combine_split. reflexivity.
Qed.

Lemma read64_write64_other (m : memory) (a v b : Z) :
  b + 8 <= a \/ a + 8 <= b ->
  read64 (write64 m a v) b = read64 m b.
Proof.
  intros H. unfold read64, write64.
  rewrite load_store_other; [reflexivity |].
  rewrite length_rev, length_le_split. lia.
Qed.

Lemma load64_store64_same (c : MappingContext) (p v : Z) :
  load64 (store64 c p v) p = wrap64 v.
Proof. apply read64_write64_same. Qed.

Lemma load64_store64_other (c : MappingContext) (p v q : Z) :
  q + 8 <= p \/ p + 8 <= q ->
  load64 (store64 c p v) q = load64 c q.
Proof. apply read64_write64_other. Qed.

(** ** The operations on cells of a context *)

Lemma in_context_true (c : MappingContext) (p n : Z) :
  0 <= p -> p + n <= size c -> in_context c p n = true.
Proof.
  intros. unfold in_context. apply andb_true_iff.
  split; apply Z.leb_le; assumption.
Qed.

Lemma at_position_read (host : byte_order) (c : MappingContext) (p : Z) :
  in_context c p 8 = true ->
  at_position p 8 (read_size_t host p) c = (Ret (load64 c p), c).
Proof.
  intros H. unfold at_position. rewrite H, read_size_t_eq. cbv beta iota.
  rewrite with_bytes_same. reflexivity.
Qed.

Lemma at_position_write (host : byte_order) (c : MappingContext) (p v : Z) :
  in_context c p 8 = true ->
  at_position p 8 (write_size_t host p v) c = (Ret tt, store64 c p v).
Proof.
  intros H. unfold at_position. rewrite H, write_size_t_eq. reflexivity.
Qed.

Lemma offset_to_to_bool_eq (host : byte_order) (c : MappingContext) (self : Z) :
  in_context c self 8 = true ->
  offset_to.to_bool host self c = (Ret (negb (load64 c self =? SIZE_MAX)), c).
Proof.
  intros H. unfold offset_to.to_bool, offset_ptr.to_bool, offset_ptr.offset, at_position.
  rewrite H. unfold bind. rewrite read_size_t_eq. unfold ret. cbv beta iota.
  rewrite with_bytes_same. reflexivity.
Qed.

Lemma offset_to_construct_eq (host : byte_order) (c : MappingContext) (self : Z) :
  in_context c self 8 = true ->
  offset_to.construct host self c = (Ret tt, store64 c self SIZE_MAX).
Proof.
  intros H. unfold offset_to.construct, offset_ptr.construct, offset_ptr.set_offset.
  apply at_position_write. assumption.
Qed.

Lemma offset_to_get_eq (host : byte_order) (c : MappingContext) (self : Z) :
  in_context c self 8 = true ->
  offset_to.get host self c = (Ret (ptr_target c self), c).
Proof.
  intros H. unfold offset_to.get, ptr_target.
  run_with (offset_to_to_bool_eq host c self H).
  destruct (load64 c self =? SIZE_MAX); cbn [negb].
  - reflexivity.
  - unfold offset_ptr.offset.
    run_with (at_position_read host c self H). reflexivity.
Qed.

Lemma offset_to_assign_eq (host : byte_order) (c : MappingContext) (self : Z) (other : ref) :
  in_context c self 8 = true ->
  offset_to.assign host self other c = (Ret tt, store64 c self (ptr_encode self other)).
Proof.
  intros H. unfold offset_to.assign, ptr_encode, base_ref_t.to_bool, offset_ptr.set_offset.
  destruct (context other); apply at_position_write; assumption.
Qed.

Lemma offset_to_eqb_eq (host : byte_order) (c : MappingContext) (self : Z) (other : ref) :
  in_context c self 8 = true ->
  offset_to.eqb host self other c = (Ret (ptr_eqb c self other), c).
Proof.
  intros H. unfold offset_to.eqb, ptr_eqb, base_ref_t.to_bool.
  run_with (offset_to_to_bool_eq host c self H).
  rewrite negb_involutive.
  destruct ((load64 c self =? SIZE_MAX) || negb (context other)).
  - reflexivity.
  - unfold offset_ptr.offset.
    run_with (at_position_read host c self H). reflexivity.
Qed.

(** ** The accessors of a block header *)

Section BlockAccessors.

Import ArenaAllocatorBlockRef.
Variable host : byte_order.
Variable c : MappingContext.
Variable p : Z.
Hypothesis header_in_context : in_context c p 24 = true.

Lemma header_cells :
  in_context c p 8 = true /\ in_context c (p + 8) 8 = true /\ in_context c (p + 16) 8 = true.
Proof.
  unfold in_context in *. apply andb_true_iff in header_in_context.
  destruct header_in_context as [H0 H1]. apply Z.leb_le in H0, H1.
  repeat split; apply andb_true_iff; split; apply Z.leb_le; lia.
Qed.

Lemma get_prev_eq : get_prev host (base_ref_t.make p) c = (Ret (ptr_target c p), c).
Proof. apply offset_to_get_eq, header_cells. Qed.

Lemma get_next_eq : get_next host (base_ref_t.make p) c = (Ret (ptr_target c (p + 8)), c).
Proof. apply offset_to_get_eq, header_cells. Qed.

Lemma set_prev_eq (r : ref) :
  set_prev host (base_ref_t.make p) r c = (Ret tt, store64 c p (ptr_encode p r)).
Proof. apply offset_to_assign_eq, header_cells. Qed.

Lemma set_next_eq (r : ref) :
  set_next host (base_ref_t.make p) r c = (Ret tt, store64 c (p + 8) (ptr_encode (p + 8) r)).
Proof. apply offset_to_assign_eq, header_cells. Qed.

Lemma get_block_size_eq :
  get_block_size host (base_ref_t.make p) c = (Ret (load64 c (p + 16)), c).
Proof. apply at_position_read, header_cells. Qed.

Lemma set_block_size_eq (v : Z) :
  set_block_size host (base_ref_t.make p) v c = (Ret tt, store64 c (p + 16) v).
Proof. apply at_position_write, header_cells. Qed.

Lemma construct_body_eq :
  construct_body host p c
  = (Ret tt, store64 (store64 (store64 c p SIZE_MAX) (p + 8) SIZE_MAX) (p + 16) 0).
Proof.
  destruct header_cells as (H0 & H1 & H2).
  unfold construct_body, prev_at, next_at, size_at.
  run_with (offset_to_construct_eq host c p H0).
  run_with (offset_to_construct_eq host (store64 c p SIZE_MAX) (p + 8) H1).
  unfold at_position. rewrite in_context_store64, in_context_store64, H2. reflexivity.
Qed.

End BlockAccessors.


(** ** The first-fit scan *)

Lemma first_fit_chain (host : byte_order) (c : MappingContext) (user_bytes : Z)
  (r : ref) (l : list Z) :
  free_chain c r l ->
  forall fuel, (List.length l < fuel)%nat ->
  exists skipped rest,
    l = skipped ++ rest /\
    Forall (fun p => load64 c (p + 16) < user_bytes) skipped /\
    match rest with
    | [] => True
    | b :: _ => user_bytes <= load64 c (b + 16)
    end /\
    ArenaAllocatorRef.first_fit host fuel r user_bytes c = (Ret (head_ref rest), c).
Proof.
  induction 1 as [| p l Hin Hchain IH]; intros fuel Hfuel.
  - exists [], []. destruct fuel as [| fuel]; [cbn in Hfuel; lia |].
    repeat split; try constructor.
  - destruct fuel as [| fuel]; [cbn in Hfuel; lia |].
    cbn [List.length] in Hfuel.
    cbn [ArenaAllocatorRef.first_fit base_ref_t.to_bool base_ref_t.make context].
    run_with (get_block_size_eq host c p Hin).
    destruct (Z.ltb_spec (load64 c (p + 16)) user_bytes) as [Hsmall | Hfits].
    + run_with (get_next_eq host c p Hin).
      destruct (IH fuel ltac:(lia)) as (skipped & rest & -> & Hall & Hrest & Hrun).
      exists (p :: skipped), rest. repeat split; try assumption.
      constructor; assumption.
    + exists [], (p :: l). repeat split; try assumption. constructor.
Qed.

(** C4. [allocate(n)] scans the free list from [first_free] along the [next]
    pointers and stops at the first block whose size is at least the bytes
    asked for: every block it skipped is strictly smaller, the block it
    stops at is large enough, and the rest of [allocate] runs on that block
    (or on the null reference when no block fits). *)
Theorem allocate_first_fit (host : byte_order) (sizeof_T : Z) (fuel : nat)
  (c : MappingContext) (n : Z) (l : list Z) :
  in_context c 0 16 = true ->
  free_chain c (ptr_target c 0) l ->
  (List.length l < fuel)%nat ->
  let user_bytes := wrap64 (n * sizeof_T) in
  exists skipped rest,
    l = skipped ++ rest /\
    Forall (fun p => load64 c (p + 16) < user_bytes) skipped /\
    match rest with
    | [] => True
    | b :: _ => user_bytes <= load64 c (b + 16)
    end /\
    ArenaAllocatorRef.first_fit host fuel (ptr_target c 0) user_bytes c
      = (Ret (head_ref rest), c) /\
    ArenaAllocatorRef.allocate host sizeof_T fuel (base_ref_t.make 0) n c
      = ArenaAllocatorRef.allocate_found host (base_ref_t.make 0) 0 (head_ref rest)
          user_bytes (wrap64 (user_bytes + 24)) c.
Proof.
  intros Hbody Hchain Hfuel user_bytes.
  destruct (first_fit_chain host c user_bytes _ _ Hchain fuel Hfuel)
    as (skipped & rest & Hl & Hall & Hrest & Hrun).
  exists skipped, rest. repeat split; try assumption.
  unfold ArenaAllocatorRef.allocate.
  cbn [base_ref_t.get_body base_ref_t.make context position].
  rewrite bind_ret_l.
  assert (Hfirst : in_context c 0 8 = true).
  { unfold in_context in *. apply andb_true_iff in Hbody. destruct Hbody as [H0 H1].
    apply Z.leb_le in H1. apply andb_true_iff. split; [assumption | apply Z.leb_le; lia]. }
  unfold ArenaAllocatorRef.first_free_at.
  run_with (offset_to_get_eq host c 0 Hfirst).
  fold user_bytes. run_with Hrun. reflexivity.
Qed.


(** ** [attach], [detach] and [split] as stores *)

Lemma ref_eta (r : ref) : context r = true -> r = base_ref_t.make (position r).
Proof. destruct r as [[|] q]; cbn; intros H; [reflexivity | discriminate]. Qed.

Lemma in_context_store_if (b : bool) (c : MappingContext) (p v q n : Z) :
  in_context (store_if b c p v) q n = in_context c q n.
Proof. destruct b; reflexivity. Qed.

Lemma size_store_if (b : bool) (c : MappingContext) (p v : Z) :
  size (store_if b c p v) = size c.
Proof. destruct b; reflexivity. Qed.

Lemma load64_store_if_other (b : bool) (c : MappingContext) (p v q : Z) :
  (b = true -> q + 8 <= p \/ p + 8 <= q) ->
  load64 (store_if b c p v) q = load64 c q.
Proof.
  destruct b; cbn [store_if]; intros H; [| reflexivity].
  apply load64_store64_other, H. reflexivity.
Qed.

Section BlockOperations.

Import ArenaAllocatorBlockRef.
Variable host : byte_order.

Lemma set_next_if_eq (c : MappingContext) (r other : ref) :
  (context r = true -> in_context c (position r) 24 = true) ->
  (if base_ref_t.to_bool r then set_next host r other else ret tt) c
  = (Ret tt, store_if (context r) c (position r + 8) (ptr_encode (position r + 8) other)).
Proof.
  intros H. unfold base_ref_t.to_bool. destruct (context r) eqn:E; [| reflexivity].
  rewrite (ref_eta r E). cbn [position base_ref_t.make store_if].
  apply set_next_eq, H. reflexivity.
Qed.

Lemma set_prev_if_eq (c : MappingContext) (r other : ref) :
  (context r = true -> in_context c (position r) 24 = true) ->
  (if base_ref_t.to_bool r then set_prev host r other else ret tt) c
  = (Ret tt, store_if (context r) c (position r) (ptr_encode (position r) other)).
Proof.
  intros H. unfold base_ref_t.to_bool. destruct (context r) eqn:E; [| reflexivity].
  rewrite (ref_eta r E). cbn [position base_ref_t.make store_if].
  apply set_prev_eq, H. reflexivity.
Qed.

Lemma attach_eq (c : MappingContext) (p : Z) (left right : ref) :
  in_context c p 24 = true ->
  (context left = true -> in_context c (position left) 24 = true) ->
  (context right = true -> in_context c (position right) 24 = true) ->
  attach host (base_ref_t.make p) left right c = (Ret tt, attach_state c p left right).
Proof.
  intros Hp Hl Hr. unfold attach, attach_state. cbv zeta.
  run_with (set_prev_eq host c p Hp left).
  run_with (set_next_if_eq (store64 c p (ptr_encode p left)) left (base_ref_t.make p) Hl).
  match goal with |- bind _ _ ?s = _ => set (c2 := s) end.
  assert (Hp2 : in_context c2 p 24 = true)
    by (subst c2; rewrite in_context_store_if; exact Hp).
  run_with (set_next_eq host c2 p Hp2 right).
  apply set_prev_if_eq.
  intros E. subst c2. rewrite in_context_store64, in_context_store_if. exact (Hr E).
Qed.

Lemma detach_eq (c : MappingContext) (p : Z) :
  in_context c p 24 = true ->
  (context (ptr_target c p) = true ->
   in_context c (position (ptr_target c p)) 24 = true) ->
  (context (ptr_target c (p + 8)) = true ->
   in_context c (position (ptr_target c (p + 8))) 24 = true) ->
  detach host (base_ref_t.make p) c
  = (Ret (ptr_target c p, ptr_target c (p + 8)), detach_state c p).
Proof.
  intros Hp Hb Ha. unfold detach, detach_state. cbv zeta.
  run_with (get_prev_eq host c p Hp).
  run_with (get_next_eq host c p Hp).
  run_with (set_next_if_eq c (ptr_target c p) (ptr_target c (p + 8)) Hb).
  match goal with |- bind _ _ ?s = _ => set (c1 := s) end.
  assert (Ha1 : context (ptr_target c (p + 8)) = true ->
                in_context c1 (position (ptr_target c (p + 8))) 24 = true)
    by (intros E; subst c1; rewrite in_context_store_if; exact (Ha E)).
  run_with (set_prev_if_eq c1 (ptr_target c (p + 8)) (ptr_target c p) Ha1).
  match goal with |- bind _ _ ?s = _ => set (c2 := s) end.
  assert (Hp2 : in_context c2 p 24 = true)
    by (subst c2 c1; rewrite !in_context_store_if; exact Hp).
  run_with (set_prev_eq host c2 p Hp2 base_ref_t.null).
  run_with (set_next_eq host (store64 c2 p (ptr_encode p base_ref_t.null)) p Hp2 base_ref_t.null).
  reflexivity.
Qed.

Lemma split_eq (c : MappingContext) (p first_bytes : Z) :
  let second := wrap64 (wrap64 (p + 24) + first_bytes) in
  let c3 := split_header_state c p first_bytes in
  in_context c p 24 = true ->
  in_context c second 24 = true ->
  (context (ptr_target c3 (p + 8)) = true ->
   in_context c (position (ptr_target c3 (p + 8))) 24 = true) ->
  split host (base_ref_t.make p) first_bytes c
  = (Ret (base_ref_t.make second), split_state c p first_bytes).
Proof.
  intros second c3 Hp Hs Ha. unfold split, split_state.
  run_with (get_block_size_eq host c p Hp).
  run_with (set_block_size_eq host c p Hp first_bytes).
  unfold get_user_data, sizeof_body_t. cbn [position base_ref_t.make].
  fold second.
  run_with (construct_body_eq host (store64 c (p + 16) first_bytes) second Hs).
  match goal with |- bind _ _ ?s = _ => set (c2 := s) end.
  run_with (set_block_size_eq host c2 second Hs (wrap64 (load64 c (p + 16) - first_bytes - 24))).
  change (store64 c2 (second + 16) (wrap64 (load64 c (p + 16) - first_bytes - 24))) with c3.
  run_with (get_next_eq host c3 p Hp).
  run_with (attach_eq c3 second (base_ref_t.make p) (ptr_target c3 (p + 8)) Hs
              (fun _ => Hp) Ha).
  reflexivity.
Qed.

End BlockOperations.


(** ** Handing out a block *)

Lemma wrap64_small (x : Z) : 0 <= x < 2 ^ 64 -> wrap64 x = x.
Proof. apply Z.mod_small. Qed.

Lemma wrap64_idem (x : Z) : wrap64 (wrap64 x) = wrap64 x.
Proof. apply Z.mod_mod. lia. Qed.

Lemma ptr_target_ext (c c' : MappingContext) (q : Z) :
  load64 c' q = load64 c q -> ptr_target c' q = ptr_target c q.
Proof. unfold ptr_target. intros ->. reflexivity. Qed.

Lemma ptr_target_make (c : MappingContext) (q b : Z) :
  load64 c q = b - q -> 0 <= b < 2 ^ 64 -> b - q <> SIZE_MAX ->
  ptr_target c q = base_ref_t.make b.
Proof.
  intros Hl Hb Hne. unfold ptr_target. rewrite Hl.
  destruct (Z.eqb_spec (b - q) SIZE_MAX) as [E | _]; [contradiction |].
  replace (q + (b - q)) with b by lia. rewrite wrap64_small by assumption. reflexivity.
Qed.

Lemma ptr_target_null (c : MappingContext) (q : Z) :
  load64 c q = SIZE_MAX -> ptr_target c q = base_ref_t.null.
Proof. intros Hl. unfold ptr_target. rewrite Hl. reflexivity. Qed.

Lemma assign_if_eq (host : byte_order) (b : bool) (c : MappingContext) (self : Z) (other : ref) :
  in_context c self 8 = true ->
  (if b then offset_to.assign host self other else ret tt) c
  = (Ret tt, store_if b c self (ptr_encode self other)).
Proof.
  intros H. destruct b; [apply offset_to_assign_eq; assumption | reflexivity].
Qed.

Ltac use_context :=
  repeat match goal with
         | H : ?b = true -> _, E : ?b = true |- _ => specialize (H E)
         end.
Ltac side := solve [ lia | intros; use_context; lia ].
Ltac loads :=
  repeat first
    [ rewrite load64_store64_same
    | rewrite load64_store64_other by side
    | rewrite load64_store_if_other by side ].
Ltac bounds :=
  solve [ apply in_context_true; lia
        | intros; use_context; apply in_context_true; lia ].

Lemma hand_out_spec (host : byte_order) (c : MappingContext) (p n : Z) :
  block_ok c p ->
  0 <= n <= load64 c (p + 16) ->
  exists c',
    ArenaAllocatorRef.hand_out host 0 (base_ref_t.make p) n (wrap64 (n + 24)) c
      = (Ret (p + 24), c') /\
    size c' = size c /\
    if n + 24 <? load64 c (p + 16)
    then load64 c' (p + 16) = n /\
         load64 c' (p + 24 + n + 16) = load64 c (p + 16) - n - 24
    else load64 c' (p + 16) = load64 c (p + 16).
Proof.
  intros (Hp & Hend & Hsize & Hprev & Hnext) Hn.
  set (s := load64 c (p + 16)) in *.
  unfold neighbour_ok in Hprev, Hnext.
  set (pv := ptr_target c p) in *. set (nx := ptr_target c (p + 8)) in *.
  assert (Hhdr : in_context c p 24 = true) by bounds.
  unfold ArenaAllocatorRef.hand_out, ArenaAllocatorRef.first_free_at,
    ArenaAllocatorRef.last_free_at, ArenaAllocatorBlockRef.get_user_data,
    ArenaAllocatorBlockRef.sizeof_body_t.
  cbn [position base_ref_t.make].
  rewrite (wrap64_small (n + 24)) by lia. rewrite (wrap64_small (p + 24)) by lia.
  run_with (get_block_size_eq host c p Hhdr). fold s.
  destruct (Z.ltb_spec (n + 24) s) as [Hsplit | Hwhole].
  - (* the block is split *)
    pose proof (split_eq host c p n) as Hrun. cbv zeta in Hrun.
    rewrite (wrap64_small (p + 24)) in Hrun by lia.
    rewrite (wrap64_small (p + 24 + n)) in Hrun by lia.
    set (sp := p + 24 + n) in *.
    assert (Hnx3 : ptr_target (split_header_state c p n) (p + 8) = nx).
    { apply ptr_target_ext. unfold split_header_state. cbv zeta.
      rewrite (wrap64_small (p + 24)) by lia. rewrite (wrap64_small (p + 24 + n)) by lia.
      fold sp. loads. reflexivity. }
    rewrite Hnx3 in Hrun.
    specialize (Hrun Hhdr ltac:(subst sp; bounds) ltac:(bounds)).
    run_with Hrun.
    set (c7 := split_state c p n).
    assert (Hc7 : c7 = attach_state (split_header_state c p n) sp (base_ref_t.make p) nx).
    { subst c7. unfold split_state. cbv zeta.
      rewrite (wrap64_small (p + 24)) by lia. rewrite (wrap64_small (p + 24 + n)) by lia.
      fold sp. rewrite Hnx3. reflexivity. }
    assert (Hsz7 : size c7 = size c).
    { rewrite Hc7. unfold attach_state. cbv zeta. rewrite !size_store_if. reflexivity. }
    assert (Hin7 : forall q k, in_context c7 q k = in_context c q k)
      by (intros; unfold in_context; rewrite Hsz7; reflexivity).
    run_with (offset_to_eqb_eq host c7 (0 + 8) (base_ref_t.make p)
                ltac:(rewrite Hin7; bounds)).
    run_with (assign_if_eq host (ptr_eqb c7 (0 + 8) (base_ref_t.make p)) c7 (0 + 8)
                (base_ref_t.make sp) ltac:(rewrite Hin7; bounds)).
    match goal with |- context [bind _ _ ?st = _] => set (cA := st) end.
    assert (HszA : size cA = size c) by (subst cA; rewrite size_store_if; exact Hsz7).
    assert (HinA : forall q k, in_context cA q k = in_context c q k)
      by (intros; unfold in_context; rewrite HszA; reflexivity).
    assert (HpvA : ptr_target cA p = pv).
    { apply ptr_target_ext. subst cA. rewrite Hc7.
      unfold attach_state, split_header_state. cbv zeta.
      rewrite (wrap64_small (p + 24)) by lia. rewrite (wrap64_small (p + 24 + n)) by lia.
      fold sp. cbn [position context base_ref_t.make]. loads. reflexivity. }
    assert (HnxA : ptr_target cA (p + 8) = base_ref_t.make sp).
    { apply ptr_target_make; [| subst sp; lia | subst sp; unfold SIZE_MAX; lia ].
      subst cA. rewrite Hc7. unfold attach_state. cbv zeta.
      cbn [position context base_ref_t.make store_if]. loads.
      unfold ptr_encode. cbn [position context base_ref_t.make].
      rewrite wrap64_idem. apply wrap64_small. subst sp. lia. }
    pose proof (detach_eq host cA p) as Hdet.
    rewrite HpvA, HnxA in Hdet. cbn [position context base_ref_t.make] in Hdet.
    specialize (Hdet ltac:(rewrite HinA; bounds) ltac:(rewrite HinA; bounds)
                  ltac:(rewrite HinA; subst sp; bounds)).
    run_with Hdet. cbn [fst snd].
    set (cB := detach_state cA p).
    assert (HszB : size cB = size c).
    { subst cB. unfold detach_state. cbv zeta. rewrite !size_store64, !size_store_if.
      exact HszA. }
    assert (HinB : forall q k, in_context cB q k = in_context c q k)
      by (intros; unfold in_context; rewrite HszB; reflexivity).
    run_with (offset_to_eqb_eq host cB 0 (base_ref_t.make p) ltac:(rewrite HinB; bounds)).
    run_with (assign_if_eq host (ptr_eqb cB 0 (base_ref_t.make p)) cB 0 pv
                ltac:(rewrite HinB; bounds)).
    match goal with |- context [bind _ _ ?st = _] => set (cC := st) end.
    assert (HinC : forall q k, in_context cC q k = in_context c q k)
      by (intros; subst cC; rewrite in_context_store_if; apply HinB).
    run_with (offset_to_eqb_eq host cC (0 + 8) (base_ref_t.make p)
                ltac:(rewrite HinC; bounds)).
    run_with (assign_if_eq host (ptr_eqb cC (0 + 8) (base_ref_t.make p)) cC (0 + 8)
                (base_ref_t.make sp) ltac:(rewrite HinC; bounds)).
    eexists. split; [reflexivity |].
    subst cC cB. unfold detach_state. cbv zeta. rewrite HpvA, HnxA.
    cbn [position context base_ref_t.make store_if].
    split; [rewrite !size_store_if, !size_store64, !size_store_if; exact HszA |].
    subst cA. rewrite Hc7. unfold attach_state, split_header_state. cbv zeta.
    rewrite (wrap64_small (p + 24)) by lia. rewrite (wrap64_small (p + 24 + n)) by lia.
    fold sp. cbn [position context base_ref_t.make store_if].
    try replace (p + 24 + n + 16) with (sp + 16) by (subst sp; lia).
    split.
    + loads. apply wrap64_small. lia.
    + loads. rewrite wrap64_idem. apply wrap64_small. lia.
  - (* the whole block is handed out *)
    pose proof (detach_eq host c p) as Hdet. fold pv nx in Hdet.
    specialize (Hdet Hhdr ltac:(bounds) ltac:(bounds)).
    cbv beta iota. rewrite bind_ret_l.
    run_with Hdet. cbn [fst snd].
    set (cB := detach_state c p).
    assert (HszB : size cB = size c).
    { subst cB. unfold detach_state. cbv zeta. rewrite !size_store64, !size_store_if.
      reflexivity. }
    assert (HinB : forall q k, in_context cB q k = in_context c q k)
      by (intros; unfold in_context; rewrite HszB; reflexivity).
    run_with (offset_to_eqb_eq host cB 0 (base_ref_t.make p) ltac:(rewrite HinB; bounds)).
    run_with (assign_if_eq host (ptr_eqb cB 0 (base_ref_t.make p)) cB 0 pv
                ltac:(rewrite HinB; bounds)).
    match goal with |- context [bind _ _ ?st = _] => set (cC := st) end.
    assert (HinC : forall q k, in_context cC q k = in_context c q k)
      by (intros; subst cC; rewrite in_context_store_if; apply HinB).
    run_with (offset_to_eqb_eq host cC (0 + 8) (base_ref_t.make p)
                ltac:(rewrite HinC; bounds)).
    run_with (assign_if_eq host (ptr_eqb cC (0 + 8) (base_ref_t.make p)) cC (0 + 8) nx
                ltac:(rewrite HinC; bounds)).
    eexists. split; [reflexivity |].
    subst cC cB. unfold detach_state. cbv zeta. fold pv nx.
    split; [rewrite !size_store_if, !size_store64, !size_store_if; reflexivity |].
    loads. reflexivity.
Qed.

(** A read of a cell either steps outside the context or returns what the
    cell holds and leaves the state alone. *)
Lemma get_block_size_inv (host : byte_order) (c c' : MappingContext) (r : ref) (v : Z) :
  ArenaAllocatorBlockRef.get_block_size host r c = (Ret v, c') ->
  context r = true /\ v = load64 c (position r + 16) /\ c' = c.
Proof.
  unfold ArenaAllocatorBlockRef.get_block_size, base_ref_t.get_body.
  destruct (context r); [| discriminate].
  rewrite bind_ret_l. unfold ArenaAllocatorBlockRef.size_at.
  destruct (in_context c (position r + 16) 8) eqn:E.
  - rewrite at_position_read by assumption. intros H. inversion H. auto.
  - unfold at_position. rewrite E. discriminate.
Qed.

Lemma get_next_inv (host : byte_order) (c c' : MappingContext) (r next : ref) :
  ArenaAllocatorBlockRef.get_next host r c = (Ret next, c') -> c' = c.
Proof.
  unfold ArenaAllocatorBlockRef.get_next, base_ref_t.get_body.
  destruct (context r); [| discriminate].
  rewrite bind_ret_l. unfold ArenaAllocatorBlockRef.next_at.
  destruct (in_context c (position r + 8) 8) eqn:E.
  - rewrite offset_to_get_eq by assumption. intros H. inversion H. reflexivity.
  - unfold offset_to.get, offset_to.to_bool, at_position, bind. rewrite E. discriminate.
Qed.

(** The block a scan stops at is large enough. *)
Lemma first_fit_fits (host : byte_order) (user_bytes : Z) (fuel : nat) :
  forall (r : ref) (c c' : MappingContext) (found : ref),
  ArenaAllocatorRef.first_fit host fuel r user_bytes c = (Ret found, c') ->
  context found = true ->
  user_bytes <= load64 c (position found + 16) /\ c' = c.
Proof.
  induction fuel as [| fuel IH]; intros r c c' found Hrun Hfound.
  - discriminate.
  - cbn [ArenaAllocatorRef.first_fit] in Hrun. unfold base_ref_t.to_bool in Hrun.
    destruct (context r) eqn:Er.
    + unfold bind at 1 in Hrun.
      destruct (ArenaAllocatorBlockRef.get_block_size host r c) as [[v | e | why |] c1] eqn:Es;
        try discriminate.
      apply get_block_size_inv in Es. destruct Es as (_ & -> & ->).
      destruct (Z.ltb_spec (load64 c (position r + 16)) user_bytes) as [Hsmall | Hfits].
      * unfold bind at 1 in Hrun.
        destruct (ArenaAllocatorBlockRef.get_next host r c) as [[next | e | why |] c1] eqn:En;
          try discriminate.
        apply get_next_inv in En. subst c1.
        apply (IH next c c' found Hrun Hfound).
      * inversion Hrun. subst. split; [assumption | reflexivity].
    + inversion Hrun. subst. congruence.
Qed.

(** C3, as the code has it. When the scan of [allocate] stops at a sound
    free block of size [s] and [user_bytes] are asked for, [allocate] returns
    the position of that block's data without growing the arena, and the
    block is split exactly when [s] strictly exceeds [user_bytes] plus the
    header size: then its size becomes [user_bytes] and a new header right
    after its data carries [s - user_bytes - 24]; otherwise the block keeps
    its whole size. *)
Theorem allocate_split_threshold (host : byte_order) (sizeof_T : Z) (fuel : nat)
  (c : MappingContext) (n p : Z) :
  let user_bytes := wrap64 (n * sizeof_T) in
  let s := load64 c (p + 16) in
  block_ok c p ->
  ArenaAllocatorRef.first_fit host fuel (ptr_target c 0) user_bytes c
    = (Ret (base_ref_t.make p), c) ->
  exists c',
    ArenaAllocatorRef.allocate host sizeof_T fuel (base_ref_t.make 0) n c
      = (Ret (p + 24), c') /\
    size c' = size c /\
    if user_bytes + ArenaAllocatorBlockRef.sizeof_body_t <? s
    then load64 c' (p + 16) = user_bytes /\
         load64 c' (p + 24 + user_bytes + 16) = s - user_bytes - 24
    else load64 c' (p + 16) = s.
Proof.
  intros user_bytes s Hok Hscan.
  destruct (first_fit_fits host user_bytes fuel _ _ _ _ Hscan eq_refl) as [Hfits _].
  cbn [position base_ref_t.make] in Hfits. fold s in Hfits.
  assert (Hub : 0 <= user_bytes < 2 ^ 64)
    by (unfold user_bytes, wrap64; apply Z.mod_pos_bound; lia).
  destruct (hand_out_spec host c p user_bytes Hok ltac:(fold s; lia))
    as (c' & Hrun & Hsize & Hloads).
  exists c'. split; [| split; assumption].
  unfold ArenaAllocatorRef.allocate.
  cbn [base_ref_t.get_body base_ref_t.make context position].
  rewrite bind_ret_l.
  destruct Hok as (Hp & Hend & Hsz & _).
  unfold ArenaAllocatorRef.first_free_at.
  run_with (offset_to_get_eq host c 0 ltac:(apply in_context_true; lia)).
  fold user_bytes. run_with Hscan.
  unfold ArenaAllocatorRef.allocate_found.
  cbn [base_ref_t.to_bool base_ref_t.make context negb].
  rewrite bind_ret_l. exact Hrun.
Qed.


(** ** Growing the arena *)

Lemma get_size_eq (c : MappingContext) : get_size c = (Ret (size c), c).
Proof. reflexivity. Qed.

Lemma set_size_eq (n : Z) (c : MappingContext) : set_size n c = (Ret tt, with_size c n).
Proof. reflexivity. Qed.

Lemma grow_eq (host : byte_order) (c : MappingContext) (user_bytes block_bytes b : Z) :
  let new_size := wrap64 (size c + Z.max (size c) block_bytes) in
  16 <= size c -> size c + 24 <= new_size ->
  resize c new_size = Some b ->
  ArenaAllocatorRef.grow host (base_ref_t.make 0) user_bytes block_bytes c
  = (Ret (base_ref_t.make (size c)), grow_state c b new_size user_bytes).
Proof.
  intros new_size Hbody Hroom Hresize.
  unfold ArenaAllocatorRef.grow, grow_state. cbv zeta.
  run_with (get_size_eq c). fold new_size.
  assert (Hcall : call_resize new_size c = (Ret tt, with_base_address c b))
    by (unfold call_resize; rewrite Hresize; reflexivity).
  run_with Hcall.
  run_with (set_size_eq new_size (with_base_address c b)).
  cbn [base_ref_t.get_body base_ref_t.make context position]. rewrite bind_ret_l.
  set (c2 := with_size (with_base_address c b) new_size).
  assert (Hnew : in_context c2 (size c) 24 = true) by (apply in_context_true; cbn; lia).
  run_with (construct_body_eq host c2 (size c) Hnew).
  match goal with |- bind _ _ ?st = _ => set (c3 := st) end.
  run_with (set_block_size_eq host c3 (size c) Hnew user_bytes).
  match goal with |- bind _ _ ?st = _ => set (c4 := st) end.
  unfold ArenaAllocatorRef.first_free_at, ArenaAllocatorRef.last_free_at.
  run_with (offset_to_assign_eq host c4 0 (base_ref_t.make (size c))
              ltac:(apply in_context_true; cbn; lia)).
  run_with (offset_to_assign_eq host (store64 c4 0 (ptr_encode 0 (base_ref_t.make (size c))))
              (0 + 8) (base_ref_t.make (size c)) ltac:(apply in_context_true; cbn; lia)).
  reflexivity.
Qed.

(** Whatever the free list held, after the grow branch the new block is its
    only member: head and tail refer to it and its own pointers are null. *)
Lemma grow_resets_free_list (host : byte_order) (c : MappingContext)
  (user_bytes block_bytes b : Z) :
  let new_size := wrap64 (size c + Z.max (size c) block_bytes) in
  let grown := snd (ArenaAllocatorRef.grow host (base_ref_t.make 0) user_bytes block_bytes c) in
  16 <= size c -> size c + 24 <= new_size -> size c < SIZE_MAX ->
  resize c new_size = Some b ->
  ptr_target grown 0 = base_ref_t.make (size c) /\
  ptr_target grown 8 = base_ref_t.make (size c) /\
  ptr_target grown (size c) = base_ref_t.null /\
  ptr_target grown (size c + 8) = base_ref_t.null.
Proof.
  intros new_size grown Hbody Hroom Hmax Hresize. subst grown.
  rewrite (grow_eq host c user_bytes block_bytes b Hbody Hroom Hresize).
  cbn [snd]. fold new_size. unfold grow_state, SIZE_MAX in *. cbv zeta.
  repeat split.
  - apply ptr_target_make; [| lia | unfold SIZE_MAX; lia].
    loads. unfold ptr_encode. cbn [context position base_ref_t.make].
    rewrite wrap64_idem. apply wrap64_small. lia.
  - apply ptr_target_make; [| lia | unfold SIZE_MAX; lia].
    loads. unfold ptr_encode. cbn [context position base_ref_t.make].
    rewrite wrap64_idem. apply wrap64_small. lia.
  - apply ptr_target_null. loads. reflexivity.
  - apply ptr_target_null. loads. reflexivity.
Qed.



(** ** The endian cell *)

(** C7. For every supported width (16, 32 or 64 bits, signed or unsigned),
    on either host byte order, building a cell from a value of the type and
    converting it back gives the value, and the default cell of zero bytes
    converts to 0. *)
Theorem big_endian_round_trip (host : byte_order) (T : int_type) (x : Z) :
  supported T -> in_range T x ->
  obind (big_endian.of_value host T x) (big_endian.to_host host T) = Ret x /\
  big_endian.to_host host T (big_endian.default T) = Ret 0.
Proof.
  intros Hs Hx.
  assert (Hpos : (0 < sizeof T)%nat) by (unfold supported in Hs; lia).
  split.
  - unfold big_endian.of_value. rewrite assign_supported by assumption.
    cbn [obind].
    rewrite to_host_supported
      by (assumption || (rewrite length_rev, length_le_split; reflexivity)).
    rewrite rev_involutive, le_combine_split, <- bits_eq.
    f_equal. rewrite <- (cast_in_range T x Hpos Hx) at 2.
    apply cast_congr. apply Z.mod_mod. apply Z.pow_nonzero; unfold bits; lia.
  - unfold big_endian.default.
    rewrite to_host_supported by (assumption || apply repeat_length).
    rewrite rev_repeat, le_combine_0.
    f_equal. apply cast_in_range; [assumption |].
    unfold in_range, int_min, int_max.
    assert (0 < 2 ^ (bits T - 1)) by (apply pow2_pos; unfold bits; lia).
    assert (0 < 2 ^ bits T) by (apply pow2_pos; unfold bits; lia).
    destruct (is_signed T); lia.
Qed.

Lemma big_endian_round_trip_witness :
  obind (big_endian.of_value LittleEndian int32_t (-2))
    (big_endian.to_host LittleEndian int32_t) = Ret (-2) /\
  big_endian.to_host LittleEndian int32_t (big_endian.default int32_t) = Ret 0.
Proof.
  apply (big_endian_round_trip LittleEndian int32_t (-2)).
  - right. left. reflexivity.
  - unfold in_range. cbn. lia.
Defined.

(** A width the cell does not implement is refused by both directions. *)
Lemma big_endian_unsupported_width (host : byte_order) :
  big_endian.assign host uint8_t 1
  = Throw (runtime_error "Unimplemented bit width: 8") /\
  big_endian.to_host host uint8_t [Byte.x01]
  = Throw (runtime_error "Unimplemented bit width: 8").
Proof. split; reflexivity. Qed.

(** ** [offset_ptr<T>] *)

Lemma offset_ptr_to_bool_eq (host : byte_order) (this : Z) (m : memory) :
  offset_ptr.to_bool host this m = (Ret (negb (read64 m this =? SIZE_MAX)), m).
Proof.
  unfold offset_ptr.to_bool, offset_ptr.offset.
  run_with (read_size_t_eq host this m). reflexivity.
Qed.

Lemma offset_ptr_arrow_eq (host : byte_order) (this : Z) (m : memory) :
  offset_ptr.arrow host this m
  = if read64 m this =? SIZE_MAX
    then (Throw (runtime_error "Null pointer dereference"), m)
    else (Ret (wrap64 (this + read64 m this)), m).
Proof.
  unfold offset_ptr.arrow, offset_ptr.offset.
  run_with (read_size_t_eq host this m).
  destruct (read64 m this =? SIZE_MAX); reflexivity.
Qed.

Lemma offset_ptr_assign_addr_eq (host : byte_order) (this addr : Z) (m : memory) :
  offset_ptr.assign_addr host this addr m
  = (Ret this, write64 m this (if addr =? 0 then SIZE_MAX else wrap64 (addr - this))).
Proof.
  unfold offset_ptr.assign_addr, offset_ptr.set_offset.
  destruct (addr =? 0); cbn [negb]; rewrite (bind_Ret _ _ _ _ _ (write_size_t_eq host _ _ m));
    reflexivity.
Qed.

(** C8, what the code does. Copy assignment never returns a reference: for
    every memory and every pair of pointers the call either throws (the
    source is null) or, having stored the new offset, runs off the end of the
    function with no [return] statement. The sibling [operator=(const T* )]
    does end in [return *this]. *)
Theorem offset_ptr_copy_assign_never_returns (host : byte_order) (this other : Z) (m : memory) :
  (fst (offset_ptr.copy_assign host this other m)
     = Throw (runtime_error "Null pointer dereference") \/
   fst (offset_ptr.copy_assign host this other m) = Undefined missing_return) /\
  fst (offset_ptr.assign_addr host this other m) = Ret this.
Proof.
  split.
  - pose proof (offset_ptr_arrow_eq host other m) as Harrow.
    unfold offset_ptr.copy_assign.
    destruct (read64 m other =? SIZE_MAX).
    + left. unfold bind at 1. rewrite Harrow. reflexivity.
    + right. run_with Harrow.
      run_with (offset_ptr_assign_addr_eq host this (wrap64 (other + read64 m other)) m).
      reflexivity.
  - rewrite offset_ptr_assign_addr_eq. reflexivity.
Qed.

(** The same on a concrete memory: the pointer at 100 refers to address 200
    and is copy-assigned to the pointer at 300. *)
Lemma offset_ptr_copy_assign_example :
  let m := snd (offset_ptr.assign_addr LittleEndian 100 200 (fun _ => Byte.x00)) in
  fst (offset_ptr.arrow LittleEndian 100 m) = Ret 200 /\
  fst (offset_ptr.copy_assign LittleEndian 300 100 m) = Undefined missing_return /\
  fst (offset_ptr.arrow LittleEndian 300 (snd (offset_ptr.copy_assign LittleEndian 300 100 m)))
  = Ret 200.
Proof. vm_compute. repeat split. Qed.

(** C9. When the source pointer is null, copy assignment and move assignment
    throw "Null pointer dereference" and leave the memory as it was, and so
    do copy construction and move construction from it (the source being
    another object than the one under construction, whose storage has only
    been zeroed): none of the four produces a null pointer. *)
Theorem offset_ptr_copy_from_null_throws (host : byte_order) (this other : Z) (m : memory) :
  fst (offset_ptr.to_bool host other m) = Ret false ->
  offset_ptr.copy_assign host this other m
    = (Throw (runtime_error "Null pointer dereference"), m) /\
  offset_ptr.move_assign host this other m
    = (Throw (runtime_error "Null pointer dereference"), m) /\
  (this + 8 <= other \/ other + 8 <= this ->
   fst (offset_ptr.copy_construct host this other m)
     = Throw (runtime_error "Null pointer dereference") /\
   fst (offset_ptr.move_construct host this other m)
     = Throw (runtime_error "Null pointer dereference")).
Proof.
  intros Hnull.
  rewrite offset_ptr_to_bool_eq in Hnull. cbn [fst] in Hnull.
  assert (E : (read64 m other =? SIZE_MAX) = true).
  { destruct (read64 m other =? SIZE_MAX); [reflexivity | discriminate]. }
  assert (Hthrow : offset_ptr.arrow host other m
                   = (Throw (runtime_error "Null pointer dereference"), m))
    by (rewrite offset_ptr_arrow_eq, E; reflexivity).
  assert (Hzero : big_endian.default size_t = rev (le_split 8 0)) by reflexivity.
  split; [| split].
  - unfold offset_ptr.copy_assign, bind at 1. rewrite Hthrow. reflexivity.
  - unfold offset_ptr.move_assign, bind at 1. rewrite Hthrow. reflexivity.
  - intros Hapart.
    assert (Hthrow0 : fst (offset_ptr.arrow host other (write64 m this 0))
                      = Throw (runtime_error "Null pointer dereference")).
    { rewrite offset_ptr_arrow_eq, read64_write64_other by lia. rewrite E. reflexivity. }
    split.
    + unfold offset_ptr.copy_construct, bind at 1. rewrite Hzero. fold (write64 m this 0).
      unfold bind at 1.
      destruct (offset_ptr.arrow host other (write64 m this 0)) as [[p | e | why |] m'];
        cbn [fst] in *; congruence.
    + unfold offset_ptr.move_construct, bind at 1. rewrite Hzero. fold (write64 m this 0).
      unfold bind at 1.
      destruct (offset_ptr.arrow host other (write64 m this 0)) as [[p | e | why |] m'];
        cbn [fst] in *; congruence.
Qed.

Lemma offset_ptr_copy_from_null_throws_witness :
  let m := snd (offset_ptr.construct LittleEndian 100 (fun _ => Byte.x00)) in
  offset_ptr.copy_assign LittleEndian 300 100 m
    = (Throw (runtime_error "Null pointer dereference"), m) /\
  offset_ptr.move_assign LittleEndian 300 100 m
    = (Throw (runtime_error "Null pointer dereference"), m) /\
  fst (offset_ptr.copy_construct LittleEndian 300 100 m)
    = Throw (runtime_error "Null pointer dereference") /\
  fst (offset_ptr.move_construct LittleEndian 300 100 m)
    = Throw (runtime_error "Null pointer dereference").
Proof.
  intros m.
  destruct (offset_ptr_copy_from_null_throws LittleEndian 300 100 m) as (Hc & Hm & Hnew).
  - vm_compute. reflexivity.
  - split; [exact Hc | split; [exact Hm |]]. apply Hnew. lia.
Defined.

(** A pointer that is not null is copied to the same target. *)
Lemma offset_ptr_copy_construct_example :
  let m := snd (offset_ptr.assign_addr LittleEndian 100 200 (fun _ => Byte.x00)) in
  fst (offset_ptr.copy_construct LittleEndian 300 100 m) = Ret tt /\
  fst (offset_ptr.arrow LittleEndian 300 (snd (offset_ptr.copy_construct LittleEndian 300 100 m)))
  = Ret 200.
Proof. vm_compute. repeat split. Qed.

(** ** The chain pointer *)

Lemma size_max_wraps : wrap64 SIZE_MAX = SIZE_MAX.
Proof. reflexivity. Qed.

(** C6. Assigning the null host address to a chain pointer, whatever it
    held, stores the sentinel (the maximum position) and returns the pointer
    itself; a pointer that holds the sentinel dereferences to the null
    address without asking the Manager; and a default-constructed pointer
    holds the sentinel and so dereferences to null. *)
Theorem pointer_null_is_sentinel (host : byte_order)
  (get_position_in_same_chain get_address_in_same_chain : Z -> Z -> outcome Z)
  (this : Z) (m : memory) :
  (fst (yomo.Pointer.position host this m) = Ret SIZE_MAX ->
   yomo.Pointer.get host get_address_in_same_chain this m = (Ret 0, m)) /\
  (let m' := snd (yomo.Pointer.assign host get_position_in_same_chain this 0 m) in
   fst (yomo.Pointer.assign host get_position_in_same_chain this 0 m) = Ret this /\
   fst (yomo.Pointer.position host this m') = Ret SIZE_MAX /\
   yomo.Pointer.get host get_address_in_same_chain this m' = (Ret 0, m')) /\
  (let m' := snd (yomo.Pointer.construct host this m) in
   fst (yomo.Pointer.position host this m') = Ret SIZE_MAX /\
   yomo.Pointer.get host get_address_in_same_chain this m' = (Ret 0, m')).
Proof.
  assert (Hget : forall m0, read64 m0 this = SIZE_MAX ->
            yomo.Pointer.get host get_address_in_same_chain this m0 = (Ret 0, m0)).
  { intros m0 E. unfold yomo.Pointer.get, yomo.Pointer.position.
    run_with (read_size_t_eq host this m0). rewrite E. reflexivity. }
  assert (Hstored : read64 (write64 m this SIZE_MAX) this = SIZE_MAX)
    by (rewrite read64_write64_same; apply size_max_wraps).
  split; [| split; cbv zeta].
  - intros Hnull. unfold yomo.Pointer.position in Hnull. rewrite read_size_t_eq in Hnull.
    cbn [fst] in Hnull. injection Hnull as Hnull. apply Hget, Hnull.
  - unfold yomo.Pointer.assign, yomo.Pointer.position. cbn [Z.eqb].
    rewrite (bind_Ret _ _ _ _ _ (write_size_t_eq host this SIZE_MAX m)).
    unfold ret. cbn [fst snd]. rewrite read_size_t_eq. cbn [fst].
    repeat split; [f_equal; exact Hstored | apply Hget, Hstored].
  - unfold yomo.Pointer.construct, yomo.Pointer.position. rewrite write_size_t_eq. cbn [snd].
    rewrite read_size_t_eq. cbn [fst].
    split; [f_equal; exact Hstored | apply Hget, Hstored].
Qed.

(** The theorem on a pointer that held a position before (its bytes are all
    zero), and on one whose bytes are the sentinel. *)
Lemma pointer_null_is_sentinel_witness :
  let zeros := fun _ : Z => Byte.x00 in
  let ones := fun _ : Z => Byte.xff in
  let gp := fun _ _ : Z => Ret 0 in
  let ga := fun _ p : Z => Ret (4096 + p) in
  fst (yomo.Pointer.position LittleEndian 64 zeros) = Ret 0 /\
  yomo.Pointer.get LittleEndian ga 64 ones = (Ret 0, ones) /\
  (let m' := snd (yomo.Pointer.assign LittleEndian gp 64 0 zeros) in
   fst (yomo.Pointer.assign LittleEndian gp 64 0 zeros) = Ret 64 /\
   fst (yomo.Pointer.position LittleEndian 64 m') = Ret SIZE_MAX /\
   yomo.Pointer.get LittleEndian ga 64 m' = (Ret 0, m')) /\
  (let m' := snd (yomo.Pointer.construct LittleEndian 64 zeros) in
   fst (yomo.Pointer.position LittleEndian 64 m') = Ret SIZE_MAX /\
   yomo.Pointer.get LittleEndian ga 64 m' = (Ret 0, m')).
Proof.
  intros zeros ones gp ga.
  destruct (pointer_null_is_sentinel LittleEndian gp ga 64 ones) as (Hget & _ & _).
  destruct (pointer_null_is_sentinel LittleEndian gp ga 64 zeros) as (_ & Hassign & Hnew).
  split; [vm_compute; reflexivity |].
  split; [apply Hget; vm_compute; reflexivity |].
  split; [exact Hassign | exact Hnew].
Defined.

(** A pointer that holds a position asks the Manager for the address. *)
Lemma pointer_get_nonnull_example :
  let ga := fun _ p : Z => Ret (4096 + p) in
  let gp := fun _ a : Z => Ret (a - 4096) in
  let m := snd (yomo.Pointer.assign LittleEndian gp 4160 4200 (fun _ => Byte.x00)) in
  fst (yomo.Pointer.get LittleEndian ga 4160 m) = Ret 4200.
Proof. vm_compute. reflexivity. Qed.

(** ** The unique mapped handle *)

(** C10. On an empty handle ([chain == NO_CHAIN]) both [dissociate()] and
    [save(fd)] throw a [runtime_error] and leave the handle and the Manager
    exactly as they were, whatever the Manager's functions do: none of them
    is reached, so no chain is created, copied or destroyed. *)
Theorem empty_handle_save_dissociate_throw (manager : Type)
  (get_dissociated_chain : Z -> M manager Z)
  (get_associated_chain : Z -> Z -> M manager Z)
  (destroy_chain : Z -> M manager unit)
  (mg : manager) (fd : Z) :
  let empty := {| yomo.UniqueMappedPointer.mgr := mg;
                  yomo.UniqueMappedPointer.chain := yomo.UniqueMappedPointer.NO_CHAIN |} in
  yomo.UniqueMappedPointer.dissociate manager get_dissociated_chain destroy_chain empty
    = (Throw (runtime_error "Cannot dissociate a null object"), empty) /\
  yomo.UniqueMappedPointer.save manager get_associated_chain destroy_chain fd empty
    = (Throw (runtime_error "Cannot save a null object"), empty) /\
  fst (yomo.UniqueMappedPointer.to_bool manager empty) = Ret false.
Proof. repeat split. Qed.

(** On a handle that owns a chain, [dissociate()] does reach the Manager:
    with a Manager that numbers chains and keeps the live ones in a list,
    the copy is made, the old chain destroyed and the new one adopted. *)
Lemma handle_dissociate_example :
  let get_dissociated_chain := fun (ch : Z) (live : list Z) =>
        (Ret (ch + 1), (ch + 1) :: live) in
  let destroy_chain := fun (ch : Z) (live : list Z) =>
        (Ret tt, filter (fun x => negb (x =? ch)) live) in
  yomo.UniqueMappedPointer.dissociate (list Z) get_dissociated_chain destroy_chain
    {| yomo.UniqueMappedPointer.mgr := [7]; yomo.UniqueMappedPointer.chain := 7 |}
  = (Ret tt, {| yomo.UniqueMappedPointer.mgr := [8]; yomo.UniqueMappedPointer.chain := 8 |}).
Proof. reflexivity. Qed.


(** ** The allocator on concrete states *)

Lemma one_free_block_state :
  let c := snd (one_free_block 100 empty_context) in
  fst (one_free_block 100 empty_context) = Ret 40 /\ size c = 140 /\
  free_list LittleEndian 8 c = Some [16] /\ load64 c (16 + 16) = 100.
Proof. vm_compute. repeat split. Qed.

Lemma two_free_blocks_state :
  let c := snd (two_free_blocks empty_context) in
  fst (two_free_blocks empty_context) = Ret (40, 72, 120) /\ size c = 220 /\
  free_list LittleEndian 8 c = Some [16; 96] /\
  load64 c (16 + 16) = 8 /\ load64 c (96 + 16) = 100.
Proof. vm_compute. repeat split. Qed.

(** C1, what the code does. One block of 8 bytes is free (at position 16)
    and 100 bytes are asked for: the scan finds nothing, and the grow branch
    makes the new block at 48 both head and tail of the list with null
    [prev] and [next]. The block at 16 was on the free list before the grow
    and is not on it afterwards: nothing points to it any more, and after the
    whole [allocate] the free list is empty. *)
Theorem grow_forgets_free_blocks :
  let c := snd (one_free_block 8 empty_context) in
  let grown := ArenaAllocatorRef.grow LittleEndian the_allocator 100 124 c in
  free_list LittleEndian 8 c = Some [16] /\
  fst (ArenaAllocatorRef.first_fit LittleEndian 8 (ptr_target c 0) 100 c)
    = Ret base_ref_t.null /\
  fst grown = Ret (base_ref_t.make 48) /\
  free_list LittleEndian 8 (snd grown) = Some [48] /\
  ptr_target (snd grown) 0 = base_ref_t.make 48 /\
  ptr_target (snd grown) 8 = base_ref_t.make 48 /\
  ptr_target (snd grown) 48 = base_ref_t.null /\
  ptr_target (snd grown) (48 + 8) = base_ref_t.null /\
  fst (alloc 100 c) = Ret 72 /\
  free_list LittleEndian 8 (snd (alloc 100 c)) = Some [].
Proof. vm_compute. repeat split. Qed.

(** C3 as the spec words it fails. A free block of 32 bytes is asked for 8:
    the leftover, 24 bytes, is enough to hold a block header, and yet the
    block is not split: it is handed out with its whole size and no
    remainder joins the free list. *)
Lemma split_threshold_counterexample :
  let c := snd (one_free_block 32 empty_context) in
  free_list LittleEndian 8 c = Some [16] /\
  load64 c (16 + 16) = 32 /\
  (ArenaAllocatorBlockRef.sizeof_body_t <=? load64 c (16 + 16) - 8) = true /\
  fst (alloc 8 c) = Ret 40 /\
  load64 (snd (alloc 8 c)) (16 + 16) = 32 /\
  free_list LittleEndian 8 (snd (alloc 8 c)) = Some [].
Proof. vm_compute. repeat split. Qed.

Ltac by_computation :=
  repeat split;
  try (vm_compute; reflexivity);
  try (vm_compute; intros H; discriminate H);
  try (intros H; vm_compute in H; discriminate H);
  try match goal with
      | H : _ = true |- _ => vm_compute in H; discriminate H
      end.

Lemma allocate_split_threshold_witness :
  let c := snd (one_free_block 100 empty_context) in
  exists c',
    ArenaAllocatorRef.allocate LittleEndian 1 8 (base_ref_t.make 0) 1 c = (Ret (16 + 24), c') /\
    size c' = size c /\
    load64 c' (16 + 16) = 1 /\
    load64 c' (16 + 24 + 1 + 16) = 100 - 1 - 24.
Proof.
  intros c.
  apply (allocate_split_threshold LittleEndian 1 8 c 1 16).
  - unfold block_ok, neighbour_ok. by_computation.
  - vm_compute. reflexivity.
Defined.

Lemma allocate_first_fit_witness :
  let c := snd (two_free_blocks empty_context) in
  exists skipped rest,
    [16; 96] = skipped ++ rest /\
    Forall (fun p => load64 c (p + 16) < 50) skipped /\
    match rest with
    | [] => True
    | b :: _ => 50 <= load64 c (b + 16)
    end /\
    ArenaAllocatorRef.first_fit LittleEndian 8 (ptr_target c 0) 50 c
      = (Ret (head_ref rest), c) /\
    ArenaAllocatorRef.allocate LittleEndian 1 8 (base_ref_t.make 0) 50 c
      = ArenaAllocatorRef.allocate_found LittleEndian (base_ref_t.make 0) 0 (head_ref rest)
          50 (wrap64 (50 + 24)) c.
Proof.
  intros c.
  apply (allocate_first_fit LittleEndian 1 8 c 50 [16; 96]).
  - vm_compute. reflexivity.
  - replace (ptr_target c 0) with (base_ref_t.make 16) by (vm_compute; reflexivity).
    apply free_chain_cons; [vm_compute; reflexivity |].
    replace (ptr_target c (16 + 8)) with (base_ref_t.make 96) by (vm_compute; reflexivity).
    apply free_chain_cons; [vm_compute; reflexivity |].
    replace (ptr_target c (96 + 8)) with base_ref_t.null by (vm_compute; reflexivity).
    apply free_chain_nil.
  - cbn. lia.
Defined.

(** ** Small checks of the model *)

Example to_host_example :
  big_endian.to_host LittleEndian uint16_t [Byte.x01; Byte.x02] = Ret 258 /\
  big_endian.to_host BigEndian uint16_t [Byte.x01; Byte.x02] = Ret 258.
Proof. vm_compute. split; reflexivity. Qed.

Example stored_bytes_example :
  big_endian.assign LittleEndian int32_t (-2) = Ret [Byte.xff; Byte.xff; Byte.xff; Byte.xfe] /\
  big_endian.assign BigEndian int32_t (-2) = Ret [Byte.xff; Byte.xff; Byte.xff; Byte.xfe].
Proof. vm_compute. split; reflexivity. Qed.


(** * Further properties of the code *)

(** ** The endian cell, beyond the round trip *)

(** [x mod 2^(8n)] and [x] have the same [n] low bytes, so [rev_nth] reads
    byte [i] of a cell as the digit of weight [256^(n-1-i)]. *)
Lemma nth_big_endian (n i : nat) (x : Z) :
  (i < n)%nat ->
  nth i (rev (le_split n x)) Byte.x00 = byte.of_Z (Z.shiftr x (8 * Z.of_nat (n - 1 - i))).
Proof.
  intros Hi.
  rewrite rev_nth by (rewrite length_le_split; assumption).
  rewrite length_le_split.
  apply nth_error_nth.
  replace (n - S i)%nat with (n - 1 - i)%nat by lia.
  rewrite nth_error_le_split by lia. reflexivity.
Qed.

(** X1. The bytes a cell holds do not depend on the host: on a little-endian
    and on a big-endian host alike, byte [i] of the storage is the digit of
    weight [256^(sizeof(T)-1-i)] of the value, most significant byte first. *)
Theorem big_endian_bytes_host_independent (host : byte_order) (T : int_type) (x : Z) :
  supported T ->
  exists bs,
    big_endian.assign host T x = Ret bs /\
    big_endian.assign LittleEndian T x = big_endian.assign BigEndian T x /\
    List.length bs = sizeof T /\
    forall i, (i < sizeof T)%nat ->
      nth i bs Byte.x00 = byte.of_Z (Z.shiftr x (8 * Z.of_nat (sizeof T - 1 - i))).
Proof.
  intros Hs. exists (rev (le_split (sizeof T) x)).
  rewrite !assign_supported by assumption.
  repeat split.
  - rewrite length_rev. apply length_le_split.
  - intros i Hi. apply nth_big_endian. assumption.
Qed.

Lemma big_endian_bytes_host_independent_witness :
  exists bs,
    big_endian.assign BigEndian uint32_t 258 = Ret bs /\
    big_endian.assign LittleEndian uint32_t 258 = big_endian.assign BigEndian uint32_t 258 /\
    List.length bs = 4%nat /\
    forall i, (i < 4)%nat ->
      nth i bs Byte.x00 = byte.of_Z (Z.shiftr 258 (8 * Z.of_nat (4 - 1 - i))).
Proof.
  apply (big_endian_bytes_host_independent BigEndian uint32_t 258).
  right. left. reflexivity.
Defined.

(** X2. Reading a cell and assigning the value read gives back the very
    bytes of the cell, whatever they were: no byte pattern of the right
    length is lost by the conversion. *)
Theorem big_endian_storage_round_trip (host : byte_order) (T : int_type) (bs : list byte) :
  supported T -> List.length bs = sizeof T ->
  obind (big_endian.to_host host T bs) (big_endian.assign host T) = Ret bs.
Proof.
  intros Hs Hlen.
  rewrite to_host_supported by assumption. cbn [obind].
  rewrite assign_supported by assumption.
  rewrite le_split_cast.
  rewrite split_le_combine' by (rewrite length_rev; assumption).
  rewrite rev_involutive. reflexivity.
Qed.

Lemma big_endian_storage_round_trip_witness :
  obind (big_endian.to_host LittleEndian int16_t [Byte.xff; Byte.x7f])
    (big_endian.assign LittleEndian int16_t) = Ret [Byte.xff; Byte.x7f].
Proof.
  apply (big_endian_storage_round_trip LittleEndian int16_t [Byte.xff; Byte.x7f]).
  - left. reflexivity.
  - reflexivity.
Defined.

(** The [switch] on the digits, when none of the six cases is taken. *)
Lemma digits_switch_default {A : Type} (z : Z) (a b c d : A) :
  z <> 64 -> z <> 63 -> z <> 32 -> z <> 31 -> z <> 16 -> z <> 15 ->
  match z with
  | 64 | 63 => a
  | 32 | 31 => b
  | 16 | 15 => c
  | _ => d
  end = d.
Proof.
  intros H64 H63 H32 H31 H16 H15.
  destruct z as [| p | p]; try reflexivity.
  do 7 (try destruct p as [p | p |]; try reflexivity; try congruence).
Qed.

(** X3. Every other width is refused, by the assignment and by the
    conversion alike, with "Unimplemented bit width: " followed by the
    digits of the type; nothing is stored or read. *)
Theorem big_endian_other_widths_throw (host : byte_order) (T : int_type) (x : Z)
  (bs : list byte) :
  ~ supported T ->
  big_endian.assign host T x
    = Throw (runtime_error
               ("Unimplemented bit width: " ++ NilZero.string_of_int (Z.to_int (digits T)))) /\
  big_endian.to_host host T bs
    = Throw (runtime_error
               ("Unimplemented bit width: " ++ NilZero.string_of_int (Z.to_int (digits T)))).
Proof.
  intros Hs. unfold supported in Hs.
  assert (Hd : digits T <> 64 /\ digits T <> 63 /\ digits T <> 32 /\
               digits T <> 31 /\ digits T <> 16 /\ digits T <> 15).
  { unfold digits, bits. destruct (is_signed T); repeat split; lia. }
  destruct Hd as (H64 & H63 & H32 & H31 & H16 & H15).
  unfold big_endian.assign, big_endian.to_host.
  split; apply digits_switch_default; assumption.
Qed.

Lemma big_endian_other_widths_throw_witness :
  big_endian.assign LittleEndian uint8_t 7 = Throw (runtime_error "Unimplemented bit width: 8") /\
  big_endian.to_host LittleEndian uint8_t [Byte.x07]
    = Throw (runtime_error "Unimplemented bit width: 8").
Proof.
  apply (big_endian_other_widths_throw LittleEndian uint8_t 7 [Byte.x07]).
  unfold supported. cbn. lia.
Defined.

(** ** [offset_ptr<T>], beyond the null source *)

Lemma wrap64_range (x : Z) : 0 <= wrap64 x < 2 ^ 64.
Proof. unfold wrap64. apply Z.mod_pos_bound. lia. Qed.

Lemma wrap64_add_sub (this addr : Z) :
  0 <= addr < 2 ^ 64 -> wrap64 (this + wrap64 (addr - this)) = addr.
Proof.
  intros H. unfold wrap64. rewrite Zplus_mod_idemp_r.
  replace (this + (addr - this)) with addr by lia. apply Z.mod_small. assumption.
Qed.

(** X4. A pointer assigned a non-null address gives that address back, is
    true as a [bool], and [operator+] steps from it in units of [sizeof(T)]:
    the stored value is the distance from the pointer's own address. The
    one target that does not survive is the address whose distance is the
    null sentinel. *)
Theorem offset_ptr_assign_arrow (host : byte_order) (sizeof_T this addr items : Z)
  (m : memory) :
  0 <= addr < 2 ^ 64 -> addr <> 0 ->
  wrap64 (addr - this) <> SIZE_MAX ->
  let m' := snd (offset_ptr.assign_addr host this addr m) in
  offset_ptr.assign_addr host this addr m = (Ret this, m') /\
  offset_ptr.to_bool host this m' = (Ret true, m') /\
  offset_ptr.arrow host this m' = (Ret addr, m') /\
  offset_ptr.plus host sizeof_T this items m' = (Ret (wrap64 (addr + items * sizeof_T)), m').
Proof.
  intros Haddr Hnz Hne m'. subst m'.
  rewrite offset_ptr_assign_addr_eq. cbn [snd].
  destruct (Z.eqb_spec addr 0) as [E | _]; [contradiction |].
  set (m' := write64 m this (wrap64 (addr - this))).
  assert (Hoff : read64 m' this = wrap64 (addr - this))
    by (subst m'; rewrite read64_write64_same; apply wrap64_idem).
  assert (Harrow : offset_ptr.arrow host this m' = (Ret addr, m')).
  { rewrite offset_ptr_arrow_eq, Hoff.
    destruct (Z.eqb_spec (wrap64 (addr - this)) SIZE_MAX) as [E | _]; [contradiction |].
    rewrite wrap64_add_sub by assumption. reflexivity. }
  repeat split.
  - rewrite offset_ptr_to_bool_eq, Hoff.
    destruct (Z.eqb_spec (wrap64 (addr - this)) SIZE_MAX) as [E | _]; [contradiction |].
    reflexivity.
  - exact Harrow.
  - unfold offset_ptr.plus. run_with Harrow. reflexivity.
Qed.

Lemma offset_ptr_assign_arrow_witness :
  let m' := snd (offset_ptr.assign_addr BigEndian 300 200 (fun _ => Byte.x00)) in
  offset_ptr.assign_addr BigEndian 300 200 (fun _ => Byte.x00) = (Ret 300, m') /\
  offset_ptr.to_bool BigEndian 300 m' = (Ret true, m') /\
  offset_ptr.arrow BigEndian 300 m' = (Ret 200, m') /\
  offset_ptr.plus BigEndian 4 300 3 m' = (Ret (wrap64 (200 + 3 * 4)), m').
Proof.
  apply (offset_ptr_assign_arrow BigEndian 4 300 200 3 (fun _ => Byte.x00)).
  - lia.
  - lia.
  - vm_compute. intros H. discriminate H.
Defined.

(** X5. The address one byte before the pointer itself cannot be stored:
    its distance is the sentinel, so after the assignment the pointer is
    false as a [bool] and dereferencing it throws, as for a null pointer. *)
Theorem offset_ptr_byte_before_is_null (host : byte_order) (this : Z) (m : memory) :
  1 < this < 2 ^ 64 ->
  let m' := snd (offset_ptr.assign_addr host this (this - 1) m) in
  offset_ptr.to_bool host this m' = (Ret false, m') /\
  offset_ptr.arrow host this m' = (Throw (runtime_error "Null pointer dereference"), m').
Proof.
  intros Hthis m'. subst m'.
  rewrite offset_ptr_assign_addr_eq. cbn [snd].
  destruct (Z.eqb_spec (this - 1) 0) as [E | _]; [lia |].
  replace (this - 1 - this) with (-1) by lia.
  change (wrap64 (-1)) with SIZE_MAX.
  set (m' := write64 m this SIZE_MAX).
  assert (Hoff : read64 m' this = SIZE_MAX)
    by (subst m'; rewrite read64_write64_same; reflexivity).
  split.
  - rewrite offset_ptr_to_bool_eq, Hoff. reflexivity.
  - rewrite offset_ptr_arrow_eq, Hoff. reflexivity.
Qed.

Lemma offset_ptr_byte_before_is_null_witness :
  let m' := snd (offset_ptr.assign_addr LittleEndian 100 (100 - 1) (fun _ => Byte.x00)) in
  offset_ptr.to_bool LittleEndian 100 m' = (Ret false, m') /\
  offset_ptr.arrow LittleEndian 100 m'
    = (Throw (runtime_error "Null pointer dereference"), m').
Proof.
  apply (offset_ptr_byte_before_is_null LittleEndian 100 (fun _ => Byte.x00)). lia.
Defined.

(** X6. A default-constructed pointer and a pointer assigned the null
    address are both false as a [bool]; [operator->] and [operator+] on them
    throw "Null pointer dereference" and leave the memory alone. *)
Theorem offset_ptr_null_throws (host : byte_order) (sizeof_T this items : Z) (m : memory) :
  let null_states := [snd (offset_ptr.construct host this m);
                      snd (offset_ptr.assign_addr host this 0 m)] in
  Forall (fun m' =>
            offset_ptr.to_bool host this m' = (Ret false, m') /\
            offset_ptr.arrow host this m'
              = (Throw (runtime_error "Null pointer dereference"), m') /\
            offset_ptr.plus host sizeof_T this items m'
              = (Throw (runtime_error "Null pointer dereference"), m'))
         null_states.
Proof.
  cbv zeta.
  assert (H : forall m', read64 m' this = SIZE_MAX ->
     offset_ptr.to_bool host this m' = (Ret false, m') /\
     offset_ptr.arrow host this m'
       = (Throw (runtime_error "Null pointer dereference"), m') /\
     offset_ptr.plus host sizeof_T this items m'
       = (Throw (runtime_error "Null pointer dereference"), m')).
  { intros m' Hoff.
    assert (Harrow : offset_ptr.arrow host this m'
                     = (Throw (runtime_error "Null pointer dereference"), m'))
      by (rewrite offset_ptr_arrow_eq, Hoff; reflexivity).
    repeat split.
    - rewrite offset_ptr_to_bool_eq, Hoff. reflexivity.
    - exact Harrow.
    - unfold offset_ptr.plus, bind. rewrite Harrow. reflexivity. }
  apply Forall_cons; [| apply Forall_cons; [| apply Forall_nil]].
  - apply H. unfold offset_ptr.construct, offset_ptr.set_offset.
    rewrite write_size_t_eq. cbn [snd]. rewrite read64_write64_same. reflexivity.
  - apply H. rewrite offset_ptr_assign_addr_eq. cbn [snd Z.eqb].
    rewrite read64_write64_same. reflexivity.
Qed.

(** X7. The pointer is position independent. When its eight bytes are found
    again [delta] bytes further on (the mapping was moved as a whole), it
    refers to the address [delta] bytes further on, and a null pointer stays
    null. *)
Theorem offset_ptr_relocation (host : byte_order) (this delta : Z) (m m' : memory) :
  load_bytes m' (this + delta) 8 = load_bytes m this 8 ->
  fst (offset_ptr.to_bool host (this + delta) m') = fst (offset_ptr.to_bool host this m) /\
  forall target,
    fst (offset_ptr.arrow host this m) = Ret target ->
    fst (offset_ptr.arrow host (this + delta) m') = Ret (wrap64 (target + delta)).
Proof.
  intros Hbytes.
  assert (Hoff : read64 m' (this + delta) = read64 m this)
    by (unfold read64; rewrite Hbytes; reflexivity).
  split.
  - rewrite !offset_ptr_to_bool_eq, Hoff. reflexivity.
  - intros target. rewrite !offset_ptr_arrow_eq, Hoff.
    destruct (read64 m this =? SIZE_MAX); cbn [fst]; [discriminate |].
    intros H. injection H as <-. f_equal.
    unfold wrap64. rewrite Zplus_mod_idemp_l. f_equal. lia.
Qed.

Lemma offset_ptr_relocation_witness :
  let m := snd (offset_ptr.assign_addr LittleEndian 300 200 (fun _ => Byte.x00)) in
  let m' := snd (offset_ptr.assign_addr LittleEndian 1300 1200 (fun _ => Byte.xff)) in
  fst (offset_ptr.to_bool LittleEndian (300 + 1000) m')
    = fst (offset_ptr.to_bool LittleEndian 300 m) /\
  forall target,
    fst (offset_ptr.arrow LittleEndian 300 m) = Ret target ->
    fst (offset_ptr.arrow LittleEndian (300 + 1000) m') = Ret (wrap64 (target + 1000)).
Proof.
  intros m m'.
  apply (offset_ptr_relocation LittleEndian 300 1000 m m').
  vm_compute. reflexivity.
Defined.

(** X8. Copy and move construction from a pointer that is not null make a
    pointer to the same target, not a copy of the stored distance, and leave
    the source as it was. (The source is another object, and its target is
    neither the null address nor the byte before the new pointer.) *)
Theorem offset_ptr_copy_construct_keeps_target (host : byte_order) (this other target : Z)
  (m : memory) :
  this + 8 <= other \/ other + 8 <= this ->
  fst (offset_ptr.arrow host other m) = Ret target ->
  target <> 0 -> wrap64 (target - this) <> SIZE_MAX ->
  Forall (fun construct =>
            let m' := snd (construct m) in
            fst (construct m) = Ret tt /\
            fst (offset_ptr.arrow host this m') = Ret target /\
            fst (offset_ptr.arrow host other m') = Ret target)
         [offset_ptr.copy_construct host this other;
          offset_ptr.move_construct host this other].
Proof.
  intros Hapart Htarget Hnz Hne.
  rewrite offset_ptr_arrow_eq in Htarget.
  destruct (read64 m other =? SIZE_MAX) eqn:E; cbn [fst] in Htarget; [discriminate |].
  injection Htarget as Htarget.
  assert (Hrange : 0 <= target < 2 ^ 64) by (rewrite <- Htarget; apply wrap64_range).
  assert (Hzero : big_endian.default size_t = rev (le_split 8 0)) by reflexivity.
  set (m0 := write64 m this 0).
  assert (Hother0 : read64 m0 other = read64 m other)
    by (subst m0; apply read64_write64_other; lia).
  assert (Harrow0 : offset_ptr.arrow host other m0 = (Ret target, m0))
    by (rewrite offset_ptr_arrow_eq, Hother0, E, Htarget; reflexivity).
  set (m1 := write64 m0 this (wrap64 (target - this))).
  assert (Hassign : offset_ptr.assign_addr host this target m0 = (Ret this, m1)).
  { rewrite offset_ptr_assign_addr_eq.
    destruct (Z.eqb_spec target 0) as [E0 | _]; [contradiction | reflexivity]. }
  assert (Hrun : forall k : M memory unit,
     k = (fun m => (Ret tt, store_bytes m this (big_endian.default size_t))) ->
     bind k (fun _ => bind (offset_ptr.arrow host other)
                        (fun p => bind (offset_ptr.assign_addr host this p)
                                    (fun _ => ret tt))) m = (Ret tt, m1)).
  { intros k ->. unfold bind at 1. rewrite Hzero. fold (write64 m this 0). fold m0.
    run_with Harrow0. run_with Hassign. reflexivity. }
  assert (Hthis1 : fst (offset_ptr.arrow host this m1) = Ret target).
  { rewrite offset_ptr_arrow_eq. subst m1. rewrite read64_write64_same, wrap64_idem.
    destruct (Z.eqb_spec (wrap64 (target - this)) SIZE_MAX) as [E1 | _]; [contradiction |].
    cbn [fst]. rewrite wrap64_add_sub by assumption. reflexivity. }
  assert (Hother1 : fst (offset_ptr.arrow host other m1) = Ret target).
  { rewrite offset_ptr_arrow_eq. subst m1.
    rewrite read64_write64_other by lia. rewrite Hother0, E, Htarget. reflexivity. }
  apply Forall_cons; [| apply Forall_cons; [| apply Forall_nil]]; cbv zeta;
    unfold offset_ptr.copy_construct, offset_ptr.move_construct;
    rewrite (Hrun _ eq_refl); cbn [fst snd]; auto.
Qed.

Lemma offset_ptr_copy_construct_keeps_target_witness :
  let m := snd (offset_ptr.assign_addr LittleEndian 100 200 (fun _ => Byte.x00)) in
  Forall (fun construct =>
            let m' := snd (construct m) in
            fst (construct m) = Ret tt /\
            fst (offset_ptr.arrow LittleEndian 300 m') = Ret 200 /\
            fst (offset_ptr.arrow LittleEndian 100 m') = Ret 200)
         [offset_ptr.copy_construct LittleEndian 300 100;
          offset_ptr.move_construct LittleEndian 300 100].
Proof.
  intros m.
  apply (offset_ptr_copy_construct_keeps_target LittleEndian 300 100 200 m).
  - lia.
  - vm_compute. reflexivity.
  - lia.
  - vm_compute. intros H. discriminate H.
Defined.

(** ** [offset_to<ref_t>] *)

(** X9. A pointer cell in the context that is assigned a reference gives
    that reference back from [get], compares equal to it, and is true as a
    [bool] exactly when the reference is not null; the size of the context
    is not touched. *)
Theorem offset_to_assign_get (host : byte_order) (c : MappingContext) (self : Z) (other : ref) :
  in_context c self 8 = true ->
  (context other = true ->
   0 <= position other < 2 ^ 64 /\ wrap64 (position other - self) <> SIZE_MAX) ->
  let c' := snd (offset_to.assign host self other c) in
  offset_to.assign host self other c = (Ret tt, c') /\
  size c' = size c /\
  offset_to.get host self c'
    = (Ret (if context other then base_ref_t.make (position other) else base_ref_t.null), c') /\
  offset_to.eqb host self other c' = (Ret true, c') /\
  offset_to.to_bool host self c' = (Ret (context other), c').
Proof.
  intros Hin Hother c'. subst c'.
  rewrite (offset_to_assign_eq host c self other Hin). cbn [snd].
  set (c' := store64 c self (ptr_encode self other)).
  assert (Hin' : in_context c' self 8 = true) by exact Hin.
  assert (Hload : load64 c' self = ptr_encode self other).
  { subst c'. rewrite load64_store64_same. unfold ptr_encode.
    destruct (context other); [apply wrap64_idem | reflexivity]. }
  rewrite (offset_to_get_eq host c' self Hin'), (offset_to_eqb_eq host c' self other Hin'),
    (offset_to_to_bool_eq host c' self Hin').
  unfold ptr_target, ptr_eqb. rewrite Hload. unfold ptr_encode.
  destruct (context other) eqn:E.
  - destruct (Hother eq_refl) as [Hrange Hne].
    destruct (Z.eqb_spec (wrap64 (position other - self)) SIZE_MAX) as [E1 | _];
      [contradiction |].
    cbn [orb andb negb]. rewrite wrap64_add_sub by assumption.
    rewrite Z.eqb_refl. repeat split.
  - cbn [orb andb negb]. repeat split.
Qed.

Lemma offset_to_assign_get_witness :
  let c := with_size empty_context 64 in
  let other := base_ref_t.make 40 in
  let c' := snd (offset_to.assign LittleEndian 8 other c) in
  offset_to.assign LittleEndian 8 other c = (Ret tt, c') /\
  size c' = size c /\
  offset_to.get LittleEndian 8 c' = (Ret (base_ref_t.make 40), c') /\
  offset_to.eqb LittleEndian 8 other c' = (Ret true, c') /\
  offset_to.to_bool LittleEndian 8 c' = (Ret true, c').
Proof.
  intros c other.
  apply (offset_to_assign_get LittleEndian c 8 other).
  - reflexivity.
  - intros _. split; [cbn; lia | vm_compute; intros H; discriminate H].
Defined.

(** ** [ArenaAllocatorRef<T>]: construction and failure *)

Lemma allocator_construct_eq (host : byte_order) (c : MappingContext) :
  ArenaAllocatorRef.construct host c
  = if size c <? 16 then
      match resize c 16 with
      | Some b =>
          (Ret (base_ref_t.make 0),
           store64 (store64 (with_size (with_base_address c b) 16) 0 SIZE_MAX) 8 SIZE_MAX)
      | None => (Throw resize_failed, c)
      end
    else (Ret (base_ref_t.make 0), c).
Proof.
  unfold ArenaAllocatorRef.construct, ArenaAllocatorRef.sizeof_body_t,
    ArenaAllocatorRef.first_free_at, ArenaAllocatorRef.last_free_at.
  run_with (get_size_eq c).
  destruct (size c <? 16); [| reflexivity].
  destruct (resize c 16) as [b |] eqn:E.
  - assert (Hcall : call_resize 16 c = (Ret tt, with_base_address c b))
      by (unfold call_resize; rewrite E; reflexivity).
    run_with Hcall.
    run_with (set_size_eq 16 (with_base_address c b)).
    set (c2 := with_size (with_base_address c b) 16).
    run_with (offset_to_construct_eq host c2 0 eq_refl).
    run_with (offset_to_construct_eq host (store64 c2 0 SIZE_MAX) (0 + 8) eq_refl).
    reflexivity.
  - unfold bind, call_resize. rewrite E. reflexivity.
Qed.

(** X10. The constructor connects to an allocator that is already there
    without touching the context; on a context too small to hold the
    allocator's body it asks for 16 bytes and makes an empty free list. Either
    way the reference is at position 0, and constructing once more changes
    nothing. *)
Theorem allocator_construct_connects (host : byte_order) (c c' : MappingContext) (r : ref) :
  ArenaAllocatorRef.construct host c = (Ret r, c') ->
  r = base_ref_t.make 0 /\
  16 <= size c' /\
  (16 <= size c -> c' = c) /\
  (size c < 16 ->
   size c' = 16 /\ resize c 16 = Some (base_address c') /\
   ptr_target c' 0 = base_ref_t.null /\ ptr_target c' 8 = base_ref_t.null) /\
  ArenaAllocatorRef.construct host c' = (Ret r, c').
Proof.
  rewrite allocator_construct_eq. intros Hrun.
  destruct (Z.ltb_spec (size c) 16) as [Hsmall | Hbig].
  - destruct (resize c 16) as [b |] eqn:E; [| discriminate].
    injection Hrun as <- <-.
    repeat split.
    all: try (cbn; lia).
    all: try (apply ptr_target_null; loads; reflexivity).
    all: try (rewrite allocator_construct_eq; reflexivity).

  - injection Hrun as <- <-.
    repeat split; try lia.
    rewrite allocator_construct_eq.
    destruct (Z.ltb_spec (size c) 16); [lia | reflexivity].
Qed.

Lemma allocator_construct_connects_witness :
  let c' := snd (ArenaAllocatorRef.construct LittleEndian empty_context) in
  base_ref_t.make 0 = base_ref_t.make 0 /\
  16 <= size c' /\
  (16 <= size empty_context -> c' = empty_context) /\
  (size empty_context < 16 ->
   size c' = 16 /\ resize empty_context 16 = Some (base_address c') /\
   ptr_target c' 0 = base_ref_t.null /\ ptr_target c' 8 = base_ref_t.null) /\
  ArenaAllocatorRef.construct LittleEndian c' = (Ret (base_ref_t.make 0), c').
Proof.
  intros c'.
  apply (allocator_construct_connects LittleEndian empty_context c' (base_ref_t.make 0)).
  vm_compute. reflexivity.
Defined.

(** X11. When the callback of the context throws, so do the constructor and
    an [allocate] whose scan found nothing, and the context is exactly as it
    was: nothing has been resized, moved or written. *)
Theorem resize_failure_changes_nothing (host : byte_order) (sizeof_T : Z) (fuel : nat)
  (c : MappingContext) (n : Z) :
  let user_bytes := wrap64 (n * sizeof_T) in
  let block_bytes := wrap64 (user_bytes + ArenaAllocatorBlockRef.sizeof_body_t) in
  in_context c 0 16 = true ->
  ArenaAllocatorRef.first_fit host fuel (ptr_target c 0) user_bytes c
    = (Ret base_ref_t.null, c) ->
  resize c (wrap64 (size c + Z.max (size c) block_bytes)) = None ->
  ArenaAllocatorRef.allocate host sizeof_T fuel (base_ref_t.make 0) n c
    = (Throw resize_failed, c) /\
  forall c0, size c0 < 16 -> resize c0 16 = None ->
    ArenaAllocatorRef.construct host c0 = (Throw resize_failed, c0).
Proof.
  intros user_bytes block_bytes Hbody Hscan Hnone. split.
  - assert (Hfirst : in_context c 0 8 = true).
    { unfold in_context in *. apply andb_true_iff in Hbody. destruct Hbody as [H0 H1].
      apply Z.leb_le in H1. apply andb_true_iff. split; [assumption | apply Z.leb_le; lia]. }
    unfold ArenaAllocatorRef.allocate.
    cbn [base_ref_t.get_body base_ref_t.make context position].
    rewrite bind_ret_l. unfold ArenaAllocatorRef.first_free_at.
    run_with (offset_to_get_eq host c 0 Hfirst).
    fold user_bytes. run_with Hscan.
    unfold ArenaAllocatorRef.allocate_found.
    cbn [base_ref_t.to_bool base_ref_t.null context negb].
    fold block_bytes.
    unfold ArenaAllocatorRef.grow.
    rewrite bind_assoc. run_with (get_size_eq c).
    unfold bind, call_resize. rewrite Hnone. reflexivity.
  - intros c0 Hsmall Hnone0. rewrite allocator_construct_eq, Hnone0.
    destruct (Z.ltb_spec (size c0) 16); [reflexivity | lia].
Qed.

Lemma resize_failure_changes_nothing_witness :
  let c := {| base_address := 4096; size := 16; resize := fun _ => None;
              bytes := fun _ => Byte.xff |} in
  ArenaAllocatorRef.allocate LittleEndian 4 8 (base_ref_t.make 0) 10 c
    = (Throw resize_failed, c) /\
  forall c0, size c0 < 16 -> resize c0 16 = None ->
    ArenaAllocatorRef.construct LittleEndian c0 = (Throw resize_failed, c0).
Proof.
  intros c.
  apply (resize_failure_changes_nothing LittleEndian 4 8 c 10).
  - reflexivity.
  - vm_compute. reflexivity.
  - reflexivity.
Defined.

(** ** What [allocate] never does to the context *)

Lemma same_frame_refl (c : MappingContext) : same_frame c c.
Proof. repeat split. Qed.

Lemma same_frame_trans (c1 c2 c3 : MappingContext) :
  same_frame c1 c2 -> same_frame c2 c3 -> same_frame c1 c3.
Proof. unfold same_frame. intros (? & ? & ?) (? & ? & ?). repeat split; congruence. Qed.

Lemma keeps_frame_ret {A : Type} (a : A) : keeps_frame (ret a).
Proof. intros c. apply same_frame_refl. Qed.

Lemma keeps_frame_throw {A : Type} (e : exn) : keeps_frame (@throw MappingContext A e).
Proof. intros c. apply same_frame_refl. Qed.

Lemma keeps_frame_out_of_fuel {A : Type} : keeps_frame (@out_of_fuel MappingContext A).
Proof. intros c. apply same_frame_refl. Qed.

Lemma keeps_frame_bind {A B : Type} (m : M MappingContext A) (k : A -> M MappingContext B) :
  keeps_frame m -> (forall a, keeps_frame (k a)) -> keeps_frame (bind m k).
Proof.
  intros Hm Hk c. unfold bind. specialize (Hm c).
  destruct (m c) as [[a | e | why |] c1]; cbn [snd] in *; try assumption.
  apply (same_frame_trans c c1); [assumption | apply Hk].
Qed.

Lemma keeps_frame_at_position {A : Type} (p n : Z) (op : M memory A) :
  keeps_frame (at_position p n op).
Proof.
  intros c. unfold at_position. destruct (in_context c p n).
  - destruct (op (bytes c)) as [r m']. repeat split.
  - apply same_frame_refl.
Qed.

Lemma keeps_frame_if {A : Type} (b : bool) (m1 m2 : M MappingContext A) :
  keeps_frame m1 -> keeps_frame m2 -> keeps_frame (if b then m1 else m2).
Proof. destruct b; auto. Qed.

Create HintDb frame.
#[local] Hint Resolve keeps_frame_ret keeps_frame_throw keeps_frame_out_of_fuel
  keeps_frame_at_position : frame.

Ltac frame :=
  repeat first
    [ solve [auto with frame]
    | apply keeps_frame_bind; [| intros ?]
    | apply keeps_frame_if
    | progress cbv zeta ].

Lemma keeps_frame_get_body (r : ref) : keeps_frame (base_ref_t.get_body r).
Proof. unfold base_ref_t.get_body. frame. Qed.

Lemma keeps_frame_to_bool (host : byte_order) (self : Z) :
  keeps_frame (offset_to.to_bool host self).
Proof. unfold offset_to.to_bool. frame. Qed.

Lemma keeps_frame_get (host : byte_order) (self : Z) : keeps_frame (offset_to.get host self).
Proof. pose proof (keeps_frame_to_bool host self). unfold offset_to.get. frame. Qed.

Lemma keeps_frame_assign (host : byte_order) (self : Z) (other : ref) :
  keeps_frame (offset_to.assign host self other).
Proof. unfold offset_to.assign. frame. Qed.

Lemma keeps_frame_eqb (host : byte_order) (self : Z) (other : ref) :
  keeps_frame (offset_to.eqb host self other).
Proof. pose proof (keeps_frame_to_bool host self). unfold offset_to.eqb. frame. Qed.

#[local] Hint Resolve keeps_frame_get_body keeps_frame_to_bool keeps_frame_get
  keeps_frame_assign keeps_frame_eqb : frame.

Section BlockFrames.

Import ArenaAllocatorBlockRef.
Variable host : byte_order.

Lemma keeps_frame_get_prev (r : ref) : keeps_frame (get_prev host r).
Proof. unfold get_prev. frame. Qed.

Lemma keeps_frame_get_next (r : ref) : keeps_frame (get_next host r).
Proof. unfold get_next. frame. Qed.

Lemma keeps_frame_set_prev (r other : ref) : keeps_frame (set_prev host r other).
Proof. unfold set_prev. frame. Qed.

Lemma keeps_frame_set_next (r other : ref) : keeps_frame (set_next host r other).
Proof. unfold set_next. frame. Qed.

Lemma keeps_frame_get_block_size (r : ref) : keeps_frame (get_block_size host r).
Proof. unfold get_block_size. frame. Qed.

Lemma keeps_frame_set_block_size (r : ref) (v : Z) : keeps_frame (set_block_size host r v).
Proof. unfold set_block_size. frame. Qed.

#[local] Hint Resolve keeps_frame_get_prev keeps_frame_get_next keeps_frame_set_prev
  keeps_frame_set_next keeps_frame_get_block_size keeps_frame_set_block_size : frame.

Lemma keeps_frame_construct_body (p : Z) : keeps_frame (construct_body host p).
Proof. unfold construct_body, offset_to.construct. frame. Qed.

Lemma keeps_frame_attach (this left right : ref) : keeps_frame (attach host this left right).
Proof. unfold attach. frame. Qed.

Lemma keeps_frame_detach (this : ref) : keeps_frame (detach host this).
Proof. unfold detach. frame. Qed.

#[local] Hint Resolve keeps_frame_construct_body keeps_frame_attach keeps_frame_detach : frame.

Lemma keeps_frame_split (this : ref) (first_bytes : Z) :
  keeps_frame (split host this first_bytes).
Proof. unfold split. frame. Qed.

#[local] Hint Resolve keeps_frame_split : frame.

Lemma keeps_frame_first_fit (fuel : nat) (user_bytes : Z) :
  forall r, keeps_frame (ArenaAllocatorRef.first_fit host fuel r user_bytes).
Proof.
  induction fuel as [| fuel IH]; intros r; cbn [ArenaAllocatorRef.first_fit]; frame.
Qed.

#[local] Hint Resolve keeps_frame_first_fit : frame.

Lemma keeps_frame_hand_out (body : Z) (found : ref) (user_bytes block_bytes : Z) :
  keeps_frame (ArenaAllocatorRef.hand_out host body found user_bytes block_bytes).
Proof. unfold ArenaAllocatorRef.hand_out. frame. Qed.

Lemma frame_then {A B : Type} (m : M MappingContext A) (k : A -> M MappingContext B)
  (c : MappingContext) (Q : MappingContext -> Prop) :
  keeps_frame m ->
  (forall c1, same_frame c c1 -> Q c1) ->
  (forall a c1, same_frame c c1 -> Q (snd (k a c1))) ->
  Q (snd (bind m k c)).
Proof.
  intros Hm Hstop Hk. unfold bind. specialize (Hm c).
  destruct (m c) as [[a | e | why |] c1]; cbn [snd] in *; auto.
Qed.

(** X13. [allocate] resizes the context at most once and only through the
    callback: however the call ends, either the size, the base address and
    the callback are those it started with, or the callback answered for
    the size plus [max(size, block_bytes)] (in [size_t] arithmetic), that is
    the new size and the answer is the new base address. *)
Theorem allocate_resizes_at_most_once (sizeof_T : Z) (fuel : nat) (this : ref) (n : Z)
  (c : MappingContext) :
  let block_bytes := wrap64 (wrap64 (n * sizeof_T) + ArenaAllocatorBlockRef.sizeof_body_t) in
  let new_size := wrap64 (size c + Z.max (size c) block_bytes) in
  let c' := snd (ArenaAllocatorRef.allocate host sizeof_T fuel this n c) in
  same_frame c c' \/
  (resize c new_size = Some (base_address c') /\ size c' = new_size /\ resize c' = resize c).
Proof.
  cbv zeta. unfold ArenaAllocatorRef.allocate. cbv zeta.
  apply frame_then; [auto with frame | intros c1 H1; left; exact H1 | intros body c1 H1].
  assert (Htrans : forall c2 c3, same_frame c c2 -> same_frame c2 c3 -> same_frame c c3)
    by (intros c2 c3; apply same_frame_trans).
  apply frame_then; [auto with frame | intros c2 H2; left; eauto | intros found0 c2 H2].
  apply Htrans with (1 := H1) in H2.
  apply frame_then;
    [apply keeps_frame_first_fit | intros c3 H3; left; eauto | intros found c3 H3].
  apply Htrans with (1 := H2) in H3.
  unfold ArenaAllocatorRef.allocate_found.
  destruct (negb (base_ref_t.to_bool found)).
  - destruct H3 as (Hsize & Hbase & Hresize).
    unfold ArenaAllocatorRef.grow. cbv zeta.
    rewrite !bind_assoc. rewrite (bind_Ret _ _ _ _ _ (get_size_eq c3)). cbv beta.
    rewrite Hsize.
    match goal with |- context [call_resize ?v] => set (new_size := v) end.
    destruct (resize c new_size) as [b |] eqn:Eb.
    + assert (Hcall : call_resize new_size c3 = (Ret tt, with_base_address c3 b))
        by (unfold call_resize; rewrite Hresize, Eb; reflexivity).
      run_with Hcall. run_with (set_size_eq new_size (with_base_address c3 b)).
      match goal with
      | |- context [snd (?m ?st)] =>
          assert (Hrest : keeps_frame m)
            by (pose proof keeps_frame_hand_out; frame);
          destruct (Hrest st) as (Hs & Hb & Hr)
      end.
      right. rewrite Hs, Hb, Hr. cbn. auto.
    + assert (Hcall : call_resize new_size c3 = (Throw resize_failed, c3))
        by (unfold call_resize; rewrite Hresize, Eb; reflexivity).
      left. rewrite !bind_assoc. unfold bind at 1. rewrite Hcall. cbn [snd].
      repeat split; assumption.
  - rewrite bind_ret_l.
    left. apply (same_frame_trans c c3); [exact H3 | apply keeps_frame_hand_out].
Qed.


End BlockFrames.


(** ** A free list of at most one block *)

Lemma ptr_target_null_inv (c : MappingContext) (q : Z) :
  ptr_target c q = base_ref_t.null -> load64 c q = SIZE_MAX.
Proof.
  unfold ptr_target. destruct (Z.eqb_spec (load64 c q) SIZE_MAX) as [E | _];
    [intros _; exact E | discriminate].
Qed.

Lemma ptr_eqb_hit (c : MappingContext) (q p : Z) :
  load64 c q = p - q -> 0 <= p < 2 ^ 64 -> p - q <> SIZE_MAX ->
  ptr_eqb c q (base_ref_t.make p) = true.
Proof.
  intros Hl Hp Hne. unfold ptr_eqb. rewrite Hl. cbn [context base_ref_t.make negb position].
  destruct (Z.eqb_spec (p - q) SIZE_MAX) as [E | _]; [contradiction |].
  cbn [orb]. replace (q + (p - q)) with p by lia. rewrite wrap64_small by assumption.
  apply Z.eqb_refl.
Qed.

Lemma free_list_empty (host : byte_order) (fuel : nat) (c : MappingContext) :
  empty_free_list c -> free_list host fuel c = Some [].
Proof.
  intros (Hsize & H0 & _). unfold free_list, ArenaAllocatorRef.first_free_at.
  rewrite (offset_to_get_eq host c 0) by (apply in_context_true; lia).
  rewrite (ptr_target_null c 0 H0). destruct fuel; reflexivity.
Qed.

Lemma grow_state_sole (c : MappingContext) (b new_size user_bytes : Z) :
  16 <= size c -> 0 <= user_bytes -> size c + 24 + user_bytes <= new_size ->
  new_size < 2 ^ 64 ->
  sole_free_block (grow_state c b new_size user_bytes) (size c) user_bytes.
Proof.
  intros Hbody Hu Hroom Hmax. unfold sole_free_block, grow_state. cbv zeta.
  unfold ptr_encode. cbn [context position base_ref_t.make].
  rewrite !size_store64. cbn [size with_size].
  repeat split; try lia; loads;
    first [reflexivity | rewrite ?wrap64_idem; rewrite wrap64_small by lia; lia].
Qed.

(** The state [hand_out] leaves when it gives out the only free block whole:
    the block's pointers and both pointers of the allocator are null. *)
Lemma hand_out_sole (host : byte_order) (c : MappingContext) (p s n : Z) :
  sole_free_block c p s -> 0 <= n -> n <= s <= n + 24 ->
  ArenaAllocatorRef.hand_out host 0 (base_ref_t.make p) n (wrap64 (n + 24)) c
  = (Ret (p + 24), taken_state c p).
Proof.
  intros (Hp & Hs & Hend & Hsize & H0 & H8 & Hprev & Hnext & Hlen) Hn Hfit.
  assert (Hhdr : in_context c p 24 = true) by bounds.
  unfold ArenaAllocatorRef.hand_out, ArenaAllocatorRef.first_free_at,
    ArenaAllocatorRef.last_free_at, ArenaAllocatorBlockRef.get_user_data,
    ArenaAllocatorBlockRef.sizeof_body_t.
  cbn [position base_ref_t.make]. change 8 with 8.
  rewrite (wrap64_small (n + 24)) by lia. rewrite (wrap64_small (p + 24)) by lia.
  run_with (get_block_size_eq host c p Hhdr). rewrite Hlen.
  destruct (Z.ltb_spec (n + 24) s) as [Habs | _]; [lia |].
  cbv beta iota. rewrite bind_ret_l.
  pose proof (detach_eq host c p) as Hdet.
  rewrite (ptr_target_null c p Hprev), (ptr_target_null c (p + 8) Hnext) in Hdet.
  specialize (Hdet Hhdr ltac:(discriminate) ltac:(discriminate)).
  unfold detach_state in Hdet. cbv zeta in Hdet.
  rewrite (ptr_target_null c p Hprev), (ptr_target_null c (p + 8) Hnext) in Hdet.
  cbn [context base_ref_t.null store_if] in Hdet.
  run_with Hdet. cbn [fst snd].
  set (cB := store64 (store64 c p SIZE_MAX) (p + 8) SIZE_MAX).
  assert (HinB : forall q k, in_context cB q k = in_context c q k) by reflexivity.
  run_with (offset_to_eqb_eq host cB 0 (base_ref_t.make p) ltac:(rewrite HinB; bounds)).
  rewrite (ptr_eqb_hit cB 0 p) by (subst cB; loads; unfold SIZE_MAX; lia).
  run_with (offset_to_assign_eq host cB 0 base_ref_t.null ltac:(rewrite HinB; bounds)).
  set (cC := store64 cB 0 _).
  assert (HinC : forall q k, in_context cC q k = in_context c q k) by reflexivity.
  run_with (offset_to_eqb_eq host cC 8 (base_ref_t.make p)
              ltac:(rewrite HinC; bounds)).
  rewrite (ptr_eqb_hit cC 8 p) by (subst cC cB; loads; unfold SIZE_MAX; lia).
  run_with (offset_to_assign_eq host cC 8 base_ref_t.null
              ltac:(rewrite HinC; bounds)).
  reflexivity.
Qed.

Lemma taken_state_empty (c : MappingContext) (p s : Z) :
  sole_free_block c p s ->
  let c' := taken_state c p in
  empty_free_list c' /\ size c' = size c /\ load64 c' (p + 16) = s /\
  load64 c' p = SIZE_MAX /\ load64 c' (p + 8) = SIZE_MAX.
Proof.
  intros (Hp & Hs & Hend & Hsize & H0 & H8 & Hprev & Hnext & Hlen). cbv zeta.
  unfold empty_free_list, taken_state. rewrite !size_store64.
  repeat split; try lia; loads; try assumption; reflexivity.
Qed.

Section OneBlock.

Variable host : byte_order.

Lemma allocate_on_empty_list (sizeof_T : Z) (fuel : nat) (c : MappingContext) (n b : Z) :
  let user_bytes := n * sizeof_T in
  let new_size := size c + Z.max (size c) (user_bytes + 24) in
  16 <= size c -> load64 c 0 = SIZE_MAX -> 0 <= user_bytes -> new_size < 2 ^ 64 ->
  resize c new_size = Some b ->
  ArenaAllocatorRef.allocate host sizeof_T (S fuel) (base_ref_t.make 0) n c
  = (Ret (size c + 24), taken_state (grow_state c b new_size user_bytes) (size c)).
Proof.
  intros user_bytes new_size Hbody H0 Hn Hmax Hresize.
  assert (Hub : wrap64 (n * sizeof_T) = user_bytes) by (apply wrap64_small; subst user_bytes; lia).
  assert (Hbb : wrap64 (user_bytes + 24) = user_bytes + 24) by (apply wrap64_small; lia).
  assert (Hns : wrap64 (size c + Z.max (size c) (user_bytes + 24)) = new_size)
    by (apply wrap64_small; subst new_size; lia).
  pose proof (grow_eq host c user_bytes (user_bytes + 24) b) as Hgrow. cbv zeta in Hgrow.
  rewrite Hns in Hgrow. specialize (Hgrow Hbody ltac:(lia) Hresize).
  pose proof (grow_state_sole c b new_size user_bytes Hbody Hn ltac:(lia) Hmax) as Hsole.
  unfold ArenaAllocatorRef.allocate.
  cbn [base_ref_t.get_body base_ref_t.make context position].
  rewrite bind_ret_l. unfold ArenaAllocatorRef.first_free_at.
  run_with (offset_to_get_eq host c 0 ltac:(apply in_context_true; lia)).
  rewrite (ptr_target_null c 0 H0). rewrite Hub.
  cbn [ArenaAllocatorRef.first_fit base_ref_t.to_bool base_ref_t.null context].
  rewrite bind_ret_l.
  unfold ArenaAllocatorRef.allocate_found, ArenaAllocatorBlockRef.sizeof_body_t.
  cbn [base_ref_t.to_bool base_ref_t.null context negb].
  rewrite Hbb. run_with Hgrow. rewrite <- Hbb at 1.
  apply (hand_out_sole host _ (size c) user_bytes user_bytes Hsole); lia.
Qed.

End OneBlock.

(** X14. When the free list is empty, [allocate] grows the context and hands
    out the whole new block: the block records the bytes asked for, not the
    bytes added, and afterwards the free list is empty again. The
    [max(size, block_bytes) - block_bytes] bytes behind the block are on no
    free list. *)
Theorem allocate_on_empty_list_keeps_it_empty (host : byte_order) (sizeof_T : Z)
  (fuel : nat) (c : MappingContext) (n b : Z) :
  let user_bytes := n * sizeof_T in
  let new_size := size c + Z.max (size c) (user_bytes + 24) in
  16 <= size c -> ptr_target c 0 = base_ref_t.null ->
  0 <= user_bytes -> new_size < 2 ^ 64 ->
  resize c new_size = Some b -> (0 < fuel)%nat ->
  exists c',
    ArenaAllocatorRef.allocate host sizeof_T fuel (base_ref_t.make 0) n c
      = (Ret (size c + 24), c') /\
    size c' = new_size /\ base_address c' = b /\
    load64 c' (size c + 16) = user_bytes /\
    free_list host fuel c' = Some [] /\
    ptr_target c' 8 = base_ref_t.null.
Proof.
  intros user_bytes new_size Hbody H0 Hn Hmax Hresize Hfuel.
  destruct fuel as [| fuel]; [lia |].
  apply ptr_target_null_inv in H0.
  pose proof (grow_state_sole c b new_size user_bytes Hbody Hn ltac:(lia) Hmax) as Hsole.
  destruct (taken_state_empty _ _ _ Hsole) as (Hempty & Hsize & Hlen & _).
  eexists. split; [apply (allocate_on_empty_list host sizeof_T fuel c n b); assumption |].
  repeat split; try assumption; try reflexivity.
  all: first [apply free_list_empty; exact Hempty | apply ptr_target_null; apply Hempty].
Qed.

Lemma allocate_on_empty_list_keeps_it_empty_witness :
  exists c',
    ArenaAllocatorRef.allocate LittleEndian 4 1
      (base_ref_t.make 0) 10 (snd (ArenaAllocatorRef.construct LittleEndian empty_context))
      = (Ret 40, c') /\
    size c' = 80 /\ free_list LittleEndian 1 c' = Some [].
Proof.
  destruct (allocate_on_empty_list_keeps_it_empty LittleEndian 4 1
              (snd (ArenaAllocatorRef.construct LittleEndian empty_context)) 10 4096)
    as (c' & Hrun & Hsize & _ & _ & Hlist & _).
  - vm_compute. discriminate.
  - vm_compute. reflexivity.
  - vm_compute. discriminate.
  - vm_compute. reflexivity.
  - reflexivity.
  - lia.
  - exists c'. repeat split; assumption.
Defined.

(** ** The root object *)

Section Root.

Import ArenaRefAllocatorRef.
Variable host : byte_order.

Lemma connect_existing (sizeof_body : Z) (fuel : nat) (c : MappingContext) :
  0 <= sizeof_body -> 40 + sizeof_body <= size c -> size c < 2 ^ 64 ->
  connect_or_create_root host sizeof_body fuel (base_ref_t.make 0) c
  = (Ret (base_ref_t.make 40), c).
Proof.
  intros Hs Hsize Hmax.
  unfold connect_or_create_root, context_size, ArenaAllocatorRef.reserved_space,
    ArenaAllocatorRef.sizeof_body_t, ArenaAllocatorBlockRef.sizeof_body_t.
  cbn [context base_ref_t.make]. cbv zeta. change (16 + 24) with 40.
  run_with (get_size_eq c).
  destruct (Z.ltb_spec (size c) 40) as [Habs | _]; [lia |].
  rewrite bind_ret_l. run_with (get_size_eq c).
  rewrite (wrap64_small (40 + sizeof_body)) by lia.
  destruct (Z.leb_spec (40 + sizeof_body) (size c)) as [_ | Habs]; [reflexivity | lia].
Qed.

(** X17. On a context that holds nothing yet, making the allocator and
    asking for the root creates the root at position 40, right behind the
    allocator's body and one block header: the context then has exactly
    [40 + sizeof(body_t)] bytes, the free list is empty, and asking again
    connects to the same root without changing anything. *)
Theorem connect_or_create_root_fresh (sizeof_body : Z) (fuel : nat) (c : MappingContext)
  (b1 b2 : Z) :
  size c < 16 -> 0 <= sizeof_body -> 40 + sizeof_body < 2 ^ 64 ->
  resize c 16 = Some b1 -> resize c (40 + sizeof_body) = Some b2 -> (0 < fuel)%nat ->
  exists c',
    (this <- ArenaAllocatorRef.construct host ;;
     connect_or_create_root host sizeof_body fuel this) c
      = (Ret (base_ref_t.make 40), c') /\
    size c' = 40 + sizeof_body /\ base_address c' = b2 /\
    load64 c' 32 = sizeof_body /\
    free_list host fuel c' = Some [] /\
    connect_or_create_root host sizeof_body fuel (base_ref_t.make 0) c'
      = (Ret (base_ref_t.make 40), c').
Proof.
  intros Hsmall Hs Hmax Hr1 Hr2 Hfuel.
  destruct fuel as [| fuel]; [lia |].
  pose proof (allocator_construct_eq host c) as Hcon.
  destruct (Z.ltb_spec (size c) 16) as [_ | Habs]; [| lia]. rewrite Hr1 in Hcon.
  set (c1 := store64 (store64 (with_size (with_base_address c b1) 16) 0 SIZE_MAX) 8 SIZE_MAX)
    in *.
  assert (Hsize1 : size c1 = 16) by reflexivity.
  assert (H01 : load64 c1 0 = SIZE_MAX) by (subst c1; loads; reflexivity).
  pose proof (allocate_on_empty_list host sizeof_body fuel c1 1 b2) as Hrun.
  cbv zeta in Hrun. rewrite Hsize1 in Hrun.
  replace (1 * sizeof_body) with sizeof_body in Hrun by lia.
  replace (16 + Z.max 16 (sizeof_body + 24)) with (40 + sizeof_body) in Hrun by lia.
  specialize (Hrun ltac:(lia) H01 Hs Hmax Hr2). change (16 + 24) with 40 in Hrun.
  pose proof (grow_state_sole c1 b2 (40 + sizeof_body) sizeof_body) as Hsole.
  rewrite Hsize1 in Hsole. specialize (Hsole ltac:(lia) Hs ltac:(lia) Hmax).
  set (cg := grow_state c1 b2 (40 + sizeof_body) sizeof_body) in *.
  destruct (taken_state_empty _ _ _ Hsole) as (Hempty & Hsize & Hlen & _).
  set (c2 := taken_state cg 16) in *.
  assert (Hsize2 : size c2 = 40 + sizeof_body) by (rewrite Hsize; reflexivity).
  exists c2.
  repeat split; try assumption; try reflexivity.
  - run_with Hcon.
    unfold connect_or_create_root, context_size, ArenaAllocatorRef.reserved_space,
      ArenaAllocatorRef.sizeof_body_t, ArenaAllocatorBlockRef.sizeof_body_t.
    cbn [context base_ref_t.make]. cbv zeta. change (16 + 24) with 40.
    run_with (get_size_eq c1). rewrite Hsize1. cbn [Z.ltb Z.compare Pos.compare Pos.compare_cont].
    run_with Hrun. cbn [Z.eqb Pos.eqb negb]. rewrite bind_ret_l.
    run_with (get_size_eq c2). rewrite Hsize2.
    rewrite (wrap64_small (40 + sizeof_body)) by lia.
    rewrite Z.leb_refl. reflexivity.
  - apply free_list_empty, Hempty.
  - apply connect_existing; lia.
Qed.

(** A context that ends between the root position and the end a root would
    have holds no root, and is left as it was. *)
Lemma connect_too_small (sizeof_body : Z) (fuel : nat)
  (c : MappingContext) :
  40 <= size c -> size c < 40 + sizeof_body -> 40 + sizeof_body < 2 ^ 64 ->
  connect_or_create_root host sizeof_body fuel (base_ref_t.make 0) c
  = (Throw (runtime_error
              ("Could not find root object of size " ++ to_string sizeof_body ++
               " in context of size " ++ to_string (size c) ++
               " after header of size 40")), c).
Proof.
  intros Hlow Hhigh Hmax.
  unfold connect_or_create_root, context_size, ArenaAllocatorRef.reserved_space,
    ArenaAllocatorRef.sizeof_body_t, ArenaAllocatorBlockRef.sizeof_body_t.
  cbn [context base_ref_t.make]. cbv zeta. change (16 + 24) with 40.
  run_with (get_size_eq c).
  destruct (Z.ltb_spec (size c) 40) as [Habs | _]; [lia |].
  rewrite bind_ret_l. run_with (get_size_eq c).
  rewrite (wrap64_small (40 + sizeof_body)) by lia.
  destruct (Z.leb_spec (40 + sizeof_body) (size c)) as [Habs | _]; [lia | reflexivity].
Qed.

(** X18. When the context already holds more than the allocator's body but
    less than a root, the block that [connect_or_create_root] allocates
    does not land at position 40: the call throws "Allocated root at ...
    instead of 40", and the context stays grown by the failed attempt. *)
Theorem connect_or_create_root_misplaced (sizeof_body : Z) (fuel : nat)
  (c : MappingContext) (b : Z) :
  let new_size := size c + Z.max (size c) (sizeof_body + 24) in
  16 < size c < 40 -> ptr_target c 0 = base_ref_t.null ->
  0 <= sizeof_body -> new_size < 2 ^ 64 ->
  resize c new_size = Some b -> (0 < fuel)%nat ->
  exists c',
    connect_or_create_root host sizeof_body fuel (base_ref_t.make 0) c
      = (Throw (runtime_error
                  ("Allocated root at " ++ to_string (size c + 24) ++ " instead of 40")), c') /\
    size c' = new_size /\ base_address c' = b.
Proof.
  intros new_size Hsize H0 Hs Hmax Hresize Hfuel.
  destruct fuel as [| fuel]; [lia |].
  apply ptr_target_null_inv in H0.
  pose proof (allocate_on_empty_list host sizeof_body fuel c 1 b) as Hrun.
  cbv zeta in Hrun. replace (1 * sizeof_body) with sizeof_body in Hrun by lia.
  specialize (Hrun ltac:(lia) H0 Hs Hmax Hresize).
  exists (taken_state (grow_state c b new_size sizeof_body) (size c)).
  split; [| split; reflexivity].
  unfold connect_or_create_root, context_size, ArenaAllocatorRef.reserved_space,
    ArenaAllocatorRef.sizeof_body_t, ArenaAllocatorBlockRef.sizeof_body_t.
  cbn [context base_ref_t.make]. cbv zeta. change (16 + 24) with 40.
  run_with (get_size_eq c).
  destruct (Z.ltb_spec (size c) 40) as [_ | Habs]; [| lia].
  run_with Hrun.
  destruct (Z.eqb_spec (size c + 24) 40) as [Habs | _]; [lia |].
  reflexivity.
Qed.

(** X19. The first object that the allocating constructor of a reference
    makes in a context that holds nothing yet stands where the root is
    looked for: [connect_or_create_root] with the same body size then
    returns that very reference and changes nothing. *)
Theorem first_body_is_the_root (sizeof_body : Z) (fuel : nat) (c : MappingContext)
  (b1 b2 : Z) :
  size c < 16 -> 0 <= sizeof_body -> 40 + sizeof_body < 2 ^ 64 ->
  resize c 16 = Some b1 -> resize c (40 + sizeof_body) = Some b2 -> (0 < fuel)%nat ->
  exists (r : ref) (c' : MappingContext),
    base_ref_t_construct host sizeof_body fuel c = (Ret r, c') /\
    connect_or_create_root host sizeof_body fuel (base_ref_t.make 0) c' = (Ret r, c').
Proof.
  intros Hsmall Hs Hmax Hr1 Hr2 Hfuel.
  destruct fuel as [| fuel]; [lia |].
  pose proof (allocator_construct_eq host c) as Hcon.
  destruct (Z.ltb_spec (size c) 16) as [_ | Habs]; [| lia]. rewrite Hr1 in Hcon.
  set (c1 := store64 (store64 (with_size (with_base_address c b1) 16) 0 SIZE_MAX) 8 SIZE_MAX)
    in *.
  assert (Hsize1 : size c1 = 16) by reflexivity.
  assert (H01 : load64 c1 0 = SIZE_MAX) by (subst c1; loads; reflexivity).
  pose proof (allocate_on_empty_list host sizeof_body fuel c1 1 b2) as Hrun.
  cbv zeta in Hrun. rewrite Hsize1 in Hrun.
  replace (1 * sizeof_body) with sizeof_body in Hrun by lia.
  replace (16 + Z.max 16 (sizeof_body + 24)) with (40 + sizeof_body) in Hrun by lia.
  specialize (Hrun ltac:(lia) H01 Hs Hmax Hr2). change (16 + 24) with 40 in Hrun.
  eexists. eexists. split.
  - unfold base_ref_t_construct. run_with Hcon. run_with Hrun. reflexivity.
  - apply connect_existing; [assumption | | exact Hmax].
    unfold taken_state. rewrite !size_store64. cbn. lia.
Qed.

End Root.

Lemma connect_or_create_root_fresh_witness :
  exists c',
    (this <- ArenaAllocatorRef.construct LittleEndian ;;
     ArenaRefAllocatorRef.connect_or_create_root LittleEndian 24 1 this) empty_context
      = (Ret (base_ref_t.make 40), c') /\
    size c' = 64.
Proof.
  destruct (connect_or_create_root_fresh LittleEndian 24 1 empty_context 4096 4096)
    as (c' & Hrun & Hsize & _); try (vm_compute; reflexivity); try lia.
  exists c'. split; assumption.
Defined.

Lemma connect_or_create_root_misplaced_witness :
  exists c',
    ArenaRefAllocatorRef.connect_or_create_root LittleEndian 24 1 (base_ref_t.make 0)
      (with_size (snd (ArenaAllocatorRef.construct LittleEndian empty_context)) 20)
      = (Throw (runtime_error "Allocated root at 44 instead of 40"), c') /\
    size c' = 68.
Proof.
  destruct (connect_or_create_root_misplaced LittleEndian 24 1
              (with_size (snd (ArenaAllocatorRef.construct LittleEndian empty_context)) 20)
              4096)
    as (c' & Hrun & Hsize & _).
  - cbn. lia.
  - vm_compute. reflexivity.
  - lia.
  - vm_compute. reflexivity.
  - reflexivity.
  - lia.
  - exists c'. split; assumption.
Defined.

Lemma first_body_is_the_root_witness :
  exists (r : ref) (c' : MappingContext),
    base_ref_t_construct BigEndian 8 3 empty_context = (Ret r, c') /\
    ArenaRefAllocatorRef.connect_or_create_root BigEndian 8 3 (base_ref_t.make 0) c' = (Ret r, c').
Proof.
  apply (first_body_is_the_root BigEndian 8 3 empty_context 4096 4096);
    try (vm_compute; reflexivity); lia.
Defined.

(** ** The chain pointer and the Manager *)

Section ChainPointer.

Import yomo.Pointer.
Variable host : byte_order.
Variables gp ga : Z -> Z -> outcome Z.

Lemma pointer_assign_eq (this addr pos : Z) (m : memory) :
  addr <> 0 -> gp this addr = Ret pos ->
  assign host gp this addr m = (Ret this, write64 m this pos).
Proof.
  intros Hnz Hpos. unfold assign.
  destruct (Z.eqb_spec addr 0) as [E | _]; [contradiction |].
  assert (Hl : lift (gp this addr) m = (Ret pos, m)) by (unfold lift; rewrite Hpos; reflexivity).
  run_with Hl. run_with (write_size_t_eq host this pos m). reflexivity.
Qed.

(** X20. A chain pointer assigned a non-null address holds the position the
    Manager gave for it: it tests true, and when the Manager maps that
    position back to the address, [get] returns the address and [+] the
    address moved by whole items. *)
Theorem pointer_assign_then_get (sizeof_T this addr pos items : Z) (m : memory) :
  addr <> 0 -> gp this addr = Ret pos -> 0 <= pos < SIZE_MAX -> ga this pos = Ret addr ->
  let m' := snd (assign host gp this addr m) in
  fst (assign host gp this addr m) = Ret this /\
  position host this m' = (Ret pos, m') /\
  to_bool host this m' = (Ret true, m') /\
  get host ga this m' = (Ret addr, m') /\
  plus host ga sizeof_T this items m' = (Ret (wrap64 (addr + items * sizeof_T)), m').
Proof.
  intros Hnz Hpos Hrange Haddr. cbv zeta.
  rewrite (pointer_assign_eq this addr pos m Hnz Hpos). cbn [fst snd].
  set (m' := write64 m this pos).
  assert (Hread : read_size_t host this m' = (Ret pos, m')).
  { rewrite read_size_t_eq. subst m'. rewrite read64_write64_same.
    rewrite wrap64_small by (unfold SIZE_MAX in Hrange; lia). reflexivity. }
  assert (Hget : get host ga this m' = (Ret addr, m')).
  { unfold get, position. run_with Hread.
    destruct (Z.eqb_spec pos SIZE_MAX) as [E | _]; [lia |].
    unfold lift. rewrite Haddr. reflexivity. }
  repeat split.
  - exact Hread.
  - unfold to_bool, position. run_with Hread.
    destruct (Z.eqb_spec pos SIZE_MAX) as [E | _]; [lia | reflexivity].
  - exact Hget.
  - unfold plus. run_with Hget. reflexivity.
Qed.

(** X21. The maximum position is the null value: when the Manager gives it
    as the position of a non-null address, the pointer assigned that address
    tests false and [get] returns the null address without asking the
    Manager. *)
Theorem pointer_max_position_reads_null (this addr : Z) (m : memory) :
  addr <> 0 -> gp this addr = Ret SIZE_MAX ->
  let m' := snd (assign host gp this addr m) in
  to_bool host this m' = (Ret false, m') /\
  get host ga this m' = (Ret 0, m').
Proof.
  intros Hnz Hpos. cbv zeta.
  rewrite (pointer_assign_eq this addr SIZE_MAX m Hnz Hpos). cbn [snd].
  set (m' := write64 m this SIZE_MAX).
  assert (Hread : read_size_t host this m' = (Ret SIZE_MAX, m')).
  { rewrite read_size_t_eq. subst m'. rewrite read64_write64_same. reflexivity. }
  split.
  - unfold to_bool, position. run_with Hread. reflexivity.
  - unfold get, position. run_with Hread. reflexivity.
Qed.

(** X22. When the Manager refuses the address (it is not in the pointer's
    chain), the assignment passes the exception on and the pointer keeps
    what it held; the converting constructor then leaves a null pointer
    behind. *)
Theorem pointer_assign_failure (this addr : Z) (e : exn) (m : memory) :
  addr <> 0 -> gp this addr = Throw e ->
  assign host gp this addr m = (Throw e, m) /\
  of_destination host gp this addr m = (Throw e, write64 m this SIZE_MAX).
Proof.
  intros Hnz Hpos.
  assert (Hassign : forall m0, assign host gp this addr m0 = (Throw e, m0)).
  { intros m0. unfold assign.
    destruct (Z.eqb_spec addr 0) as [E | _]; [contradiction |].
    unfold lift, bind. rewrite Hpos. reflexivity. }
  split; [apply Hassign |].
  unfold of_destination, construct.
  run_with (write_size_t_eq host this SIZE_MAX m).
  unfold bind. rewrite Hassign. reflexivity.
Qed.

End ChainPointer.

Lemma pointer_assign_then_get_witness :
  let gp := fun _ a : Z => Ret (a - 4096) in
  let ga := fun _ p : Z => Ret (4096 + p) in
  let m := fun _ : Z => Byte.x00 in
  let m' := snd (yomo.Pointer.assign BigEndian gp 4160 4200 m) in
  yomo.Pointer.get BigEndian ga 4160 m' = (Ret 4200, m') /\
  yomo.Pointer.plus BigEndian ga 4 4160 3 m' = (Ret 4212, m').
Proof.
  intros gp ga m.
  destruct (pointer_assign_then_get BigEndian gp ga 4 4160 4200 104 3 m)
    as (_ & _ & _ & Hget & Hplus).
  - lia.
  - reflexivity.
  - unfold SIZE_MAX. lia.
  - reflexivity.
  - split; [exact Hget | exact Hplus].
Defined.

Lemma pointer_max_position_reads_null_witness :
  let gp := fun _ _ : Z => Ret SIZE_MAX in
  let ga := fun _ p : Z => Ret (4096 + p) in
  let m := fun _ : Z => Byte.x00 in
  let m' := snd (yomo.Pointer.assign LittleEndian gp 4160 4200 m) in
  yomo.Pointer.get LittleEndian ga 4160 m' = (Ret 0, m').
Proof.
  intros gp ga m.
  apply (pointer_max_position_reads_null LittleEndian gp ga 4160 4200 m);
    [lia | reflexivity].
Defined.

Lemma pointer_assign_failure_witness :
  let gp := fun _ _ : Z => Throw (runtime_error "not in the same chain") in
  let m := fun _ : Z => Byte.x00 in
  yomo.Pointer.assign LittleEndian gp 4160 4200 m
  = (Throw (runtime_error "not in the same chain"), m).
Proof.
  intros gp m.
  apply (pointer_assign_failure LittleEndian gp 4160 4200
           (runtime_error "not in the same chain") m); [lia | reflexivity].
Defined.

(** ** The unique mapped handle and the Manager *)

Section Handle.

Import yomo.UniqueMappedPointer.
Variable manager : Type.
Variable create_chain : string -> M manager Z.
Variable create_chain_fd : Z -> string -> M manager Z.
Variable get_dissociated_chain : Z -> M manager Z.
Variable get_associated_chain : Z -> Z -> M manager Z.
Variable destroy_chain : Z -> M manager unit.
Variable allocate_from : Z -> Z -> M manager Z.

(** X23. [reset] destroys the chain of the handle at most once: whenever it
    returns the handle is empty, and a second [reset] in a row adds nothing
    to the first. *)
Theorem reset_is_idempotent (s : state manager) :
  let reset := reset manager destroy_chain in
  (fst (reset s) = Ret tt ->
   chain manager (snd (reset s)) = NO_CHAIN /\
   to_bool manager (snd (reset s)) = (Ret false, snd (reset s))) /\
  (reset ;;; reset) s = reset s.
Proof.
  cbv zeta. unfold yomo.UniqueMappedPointer.reset, to_bool, get_chain, set_chain,
    on_manager, bind, ret.
  destruct s as [mg ch]. cbn [chain mgr].
  destruct (Z.eqb_spec ch NO_CHAIN) as [E | E]; cbn [negb fst snd chain mgr].
  - subst ch. split; [intros _; split; reflexivity | reflexivity].
  - destruct (destroy_chain ch mg) as [[[] | e | why |] mg'];
      cbn [fst snd chain mgr Z.eqb NO_CHAIN negb];
      (split; [intros H; try discriminate; split; reflexivity | reflexivity]).
Qed.

(** X24. [load] and [construct] drop the chain the handle owns before they
    ask for the new one: when the Manager then throws, the old chain is
    already destroyed and the handle is left empty. *)
Theorem load_failure_empties_handle (s : state manager) (fd sizeof_T : Z) (prefix : string)
  (m1 m2 m3 : manager) (e1 e2 : exn) :
  chain manager s <> NO_CHAIN ->
  destroy_chain (chain manager s) (mgr manager s) = (Ret tt, m1) ->
  create_chain_fd fd prefix m1 = (Throw e1, m2) ->
  create_chain prefix m1 = (Throw e2, m3) ->
  load manager create_chain_fd destroy_chain fd prefix s
    = (Throw e1, {| mgr := m2; chain := NO_CHAIN |}) /\
  construct manager create_chain destroy_chain allocate_from sizeof_T prefix s
    = (Throw e2, {| mgr := m3; chain := NO_CHAIN |}).
Proof.
  intros Hown Hdestroy Hfd Hcreate.
  assert (Hreset : reset manager destroy_chain s
                   = (Ret tt, {| mgr := m1; chain := NO_CHAIN |})).
  { unfold yomo.UniqueMappedPointer.reset, get_chain, set_chain, on_manager,
      bind, ret.
    destruct (Z.eqb_spec (chain manager s) NO_CHAIN) as [E | _]; [contradiction |].
    cbn [negb]. rewrite Hdestroy. reflexivity. }
  split.
  - unfold load. run_with Hreset. unfold on_manager, bind. cbn [mgr chain].
    rewrite Hfd. reflexivity.
  - unfold construct. run_with Hreset. unfold on_manager, bind. cbn [mgr chain].
    rewrite Hcreate. reflexivity.
Qed.

(** X25. [save] and [dissociate] adopt the new chain only as their last
    step: whenever one of them does not return, because the handle is
    empty, the copy fails or the old chain cannot be destroyed, the handle
    still names the chain it named before. *)
Theorem save_dissociate_failure_keeps_chain (s : state manager) (fd : Z) :
  let saved := save manager get_associated_chain destroy_chain fd s in
  let dissociated := dissociate manager get_dissociated_chain destroy_chain s in
  (fst saved <> Ret tt -> chain manager (snd saved) = chain manager s) /\
  (fst dissociated <> Ret tt -> chain manager (snd dissociated) = chain manager s).
Proof.
  cbv zeta. unfold save, dissociate, get_chain, set_chain, on_manager, bind, throw.
  destruct s as [mg ch]. cbn [chain mgr].
  destruct (Z.eqb_spec ch NO_CHAIN) as [E | E]; cbn [fst snd chain mgr].
  - split; reflexivity.
  - split.
    + destruct (get_associated_chain ch fd mg) as [[new | e | why |] mg1];
        cbn [fst snd chain mgr]; try reflexivity.
      destruct (destroy_chain ch mg1) as [[[] | e | why |] mg2];
        cbn [fst snd chain mgr]; try reflexivity.
      intros H. contradiction H. reflexivity.
    + destruct (get_dissociated_chain ch mg) as [[new | e | why |] mg1];
        cbn [fst snd chain mgr]; try reflexivity.
      destruct (destroy_chain ch mg1) as [[[] | e | why |] mg2];
        cbn [fst snd chain mgr]; try reflexivity.
      intros H. contradiction H. reflexivity.
Qed.

End Handle.

Lemma load_failure_empties_handle_witness :
  let destroy_chain := fun (ch : Z) (live : list Z) =>
        (Ret tt, filter (fun x => negb (x =? ch)) live) in
  let create_chain_fd := fun (fd : Z) (prefix : string) (live : list Z) =>
        (@Throw Z (runtime_error "bad file"), live) in
  yomo.UniqueMappedPointer.load (list Z) create_chain_fd destroy_chain 3 "prefix"
    {| yomo.UniqueMappedPointer.mgr := [7; 9]; yomo.UniqueMappedPointer.chain := 7 |}
  = (Throw (runtime_error "bad file"),
     {| yomo.UniqueMappedPointer.mgr := [9];
        yomo.UniqueMappedPointer.chain := yomo.UniqueMappedPointer.NO_CHAIN |}).
Proof.
  intros destroy_chain create_chain_fd.
  apply (load_failure_empties_handle (list Z)
           (fun _ live => (@Throw Z (runtime_error "no space"), live))
           create_chain_fd destroy_chain (fun _ _ live => (Ret 0, live))
           {| yomo.UniqueMappedPointer.mgr := [7; 9]; yomo.UniqueMappedPointer.chain := 7 |}
           3 8 "prefix" [9] [9] [9] (runtime_error "bad file") (runtime_error "no space")).
  - discriminate.
  - reflexivity.
  - reflexivity.
  - reflexivity.
Defined.

(** ** The vector in the context *)

(** X26. [at] checks the index against the length kept in the body before
    it touches the data pointer: an index at or behind the length throws
    "Cannot get ... in vector of length ..." even when the data pointer is
    null; an index below it gives the item that many items behind the first,
    or "Null pointer dereference" when there is no data. Nothing is written
    in any case. *)
Theorem vector_at_checks_bounds (host : byte_order) (sizeof_item : Z) (c : MappingContext)
  (p index : Z) :
  in_context c p 24 = true ->
  let this := base_ref_t.make p in
  let n := load64 c p in
  MappedVectorRef.size host this c = (Ret n, c) /\
  (n <= index ->
   MappedVectorRef.at_ host sizeof_item this index c
   = (Throw (runtime_error
               ("Cannot get " ++ to_string index ++
                " in vector of length " ++ to_string n)), c)) /\
  (index < n -> load64 c (p + 16) <> SIZE_MAX ->
   MappedVectorRef.at_ host sizeof_item this index c
   = (Ret (wrap64 (wrap64 (p + 16 + load64 c (p + 16)) + index * sizeof_item)), c)) /\
  (index < n -> load64 c (p + 16) = SIZE_MAX ->
   MappedVectorRef.at_ host sizeof_item this index c
   = (Throw (runtime_error "Null pointer dereference"), c)).
Proof.
  intros Hhdr this n.
  destruct (header_cells c p Hhdr) as (H0 & _ & H2).
  assert (Hsize : MappedVectorRef.size host this c = (Ret n, c)).
  { unfold MappedVectorRef.size, MappedVectorRef.length_at. subst this.
    cbn [base_ref_t.get_body base_ref_t.make context position]. rewrite bind_ret_l.
    apply at_position_read, H0. }
  assert (Hfirst : at_position (p + 16) 8 (offset_ptr.offset host (p + 16)) c
                   = (Ret (load64 c (p + 16)), c))
    by (apply at_position_read, H2).
  assert (Hplus : at_position (p + 16) 8 (offset_ptr.plus host sizeof_item (p + 16) index) c
                  = if load64 c (p + 16) =? SIZE_MAX
                    then (Throw (runtime_error "Null pointer dereference"), c)
                    else (Ret (wrap64 (wrap64 (p + 16 + load64 c (p + 16))
                                       + index * sizeof_item)), c)).
  { unfold at_position, offset_ptr.plus, offset_ptr.arrow, offset_ptr.offset.
    rewrite H2. unfold bind. rewrite read_size_t_eq. fold (load64 c (p + 16)).
    destruct (load64 c (p + 16) =? SIZE_MAX); unfold throw, ret;
      rewrite with_bytes_same; reflexivity. }
  split; [exact Hsize |].
  unfold MappedVectorRef.at_, MappedVectorRef.first_at.
  replace (base_ref_t.get_body this) with (@ret MappingContext Z p) by reflexivity.
  rewrite bind_ret_l.
  repeat split.
  - intros Hout. run_with Hsize.
    destruct (Z.leb_spec n index) as [_ | Habs]; [| lia].
    run_with Hsize. reflexivity.
  - intros Hin Hdata. run_with Hsize.
    destruct (Z.leb_spec n index) as [Habs | _]; [lia |].
    rewrite Hplus. destruct (Z.eqb_spec (load64 c (p + 16)) SIZE_MAX); [contradiction |].
    reflexivity.
  - intros Hin Hdata. run_with Hsize.
    destruct (Z.leb_spec n index) as [Habs | _]; [lia |].
    rewrite Hplus, Hdata. reflexivity.
Qed.

Lemma vector_at_checks_bounds_witness :
  let c := store64 (store64 (with_size empty_context 64) 40 3) 56 8 in
  MappedVectorRef.at_ LittleEndian 4 (base_ref_t.make 40) 3 c
  = (Throw (runtime_error "Cannot get 3 in vector of length 3"), c) /\
  MappedVectorRef.at_ LittleEndian 4 (base_ref_t.make 40) 2 c = (Ret 72, c).
Proof.
  intros c.
  destruct (vector_at_checks_bounds LittleEndian 4 c 40 3 eq_refl) as (_ & Hout & _).
  destruct (vector_at_checks_bounds LittleEndian 4 c 40 2 eq_refl) as (_ & _ & Hin & _).
  split.
  - apply Hout. vm_compute. discriminate.
  - apply Hin; vm_compute; [reflexivity | discriminate].
Defined.

(** * The iterator of [PackedSet] *)

Section PackedSetIterator.

Import PackedSet.

Lemma skip_empty_lands (fuel : nat) (table : list Z) :
  table_size table < 2 ^ 64 ->
  forall i0, 0 <= i0 <= table_size table ->
  (Z.to_nat (table_size table - i0) < fuel)%nat ->
  exists j,
    skip_empty fuel table i0 = Ret j /\
    i0 <= j <= table_size table /\
    (forall k, i0 <= k < j -> table_get table k = 0) /\
    (j < table_size table -> table_get table j <> 0).
Proof.
  intros Hmax. induction fuel as [| fuel IH]; intros i0 Hi Hfuel; [lia |].
  cbn [skip_empty].
  destruct (Z.ltb_spec i0 (table_size table)) as [Hin | Hout]; cbn [andb].
  - destruct (Z.eqb_spec (table_get table i0) 0) as [Hzero | Hentry].
    + rewrite wrap64_small by lia.
      destruct (IH (i0 + 1) ltac:(lia) ltac:(lia)) as (j & Hrun & Hj & Hzeros & Hstop).
      exists j. split; [exact Hrun |]. split; [lia |]. split; [| exact Hstop].
      intros k Hk. destruct (Z.eq_dec k i0) as [-> | Hne]; [exact Hzero |].
      apply Hzeros. lia.
    + exists i0. split; [reflexivity |]. split; [lia |].
      split; [intros; lia | intros _; exact Hentry].
  - exists i0. split; [reflexivity |]. split; [lia |]. split; intros; lia.
Qed.

(** X27. [begin()] and [++] never stop on an empty slot: from a start
    inside the table the constructor stops at the first slot at or behind
    the start that holds an entry, [++] stops at the first such slot behind
    the iterator, and each stops at [end()] when there is none. [++] on
    [end()] itself steps over it, to a slot that is no longer equal to
    [end()]. *)
Theorem iterator_stops_on_entries (fuel : nat) (table : list Z) (this_set i0 : Z) :
  table_size table + 1 < 2 ^ 64 ->
  0 <= i0 <= table_size table ->
  (Z.to_nat (table_size table - i0) < fuel)%nat ->
  let lands (from : Z) (it : iterator) :=
    iteratee it = this_set /\
    from <= i it <= table_size table /\
    (forall k, from <= k < i it -> table_get table k = 0) /\
    (i it < table_size table -> table_get table (i it) <> 0) in
  (exists it, begin fuel table this_set i0 = Ret it /\ lands i0 it) /\
  (i0 < table_size table ->
   exists it, incr fuel table (construct_at this_set i0) = Ret it /\ lands (i0 + 1) it) /\
  (exists it, incr fuel table (end_ table this_set) = Ret it /\
              i it = table_size table + 1 /\ neqb it (end_ table this_set) = true).
Proof.
  intros Hmax Hi Hfuel lands. subst lands. cbv beta.
  split; [| split].
  - destruct (skip_empty_lands fuel table ltac:(lia) i0 Hi Hfuel)
      as (j & Hrun & Hj & Hzeros & Hstop).
    exists {| iteratee := this_set; i := j |}.
    unfold begin, construct. rewrite Hrun. cbn [obind iteratee i]. auto.
  - intros Hin.
    destruct (skip_empty_lands fuel table ltac:(lia) (i0 + 1) ltac:(lia) ltac:(lia))
      as (j & Hrun & Hj & Hzeros & Hstop).
    exists {| iteratee := this_set; i := j |}.
    unfold incr, construct_at. cbn [i iteratee]. rewrite wrap64_small by lia.
    rewrite Hrun. cbn [obind iteratee i]. auto.
  - exists {| iteratee := this_set; i := table_size table + 1 |}.
    unfold incr, end_, construct_at, neqb, eqb. cbn [i iteratee].
    rewrite wrap64_small by lia.
    destruct fuel as [| fuel]; [lia |]. cbn [skip_empty].
    destruct (Z.ltb_spec (table_size table + 1) (table_size table)) as [Habs | _]; [lia |].
    cbn [andb obind]. repeat split.
    rewrite Z.eqb_refl.
    destruct (Z.eqb_spec (table_size table + 1) (table_size table)) as [Habs | _]; [lia |].
    reflexivity.
Qed.

Lemma table_get_app (pre suf : list Z) :
  table_get (pre ++ suf) (Z.of_nat (List.length pre)) = hd 0 suf.
Proof.
  unfold table_get. rewrite Nat2Z.id. rewrite app_nth2 by lia.
  rewrite Nat.sub_diag. destruct suf; reflexivity.
Qed.

Lemma table_size_app (pre suf : list Z) :
  table_size (pre ++ suf) = Z.of_nat (List.length pre) + Z.of_nat (List.length suf).
Proof. unfold table_size. rewrite length_app. lia. Qed.

(** Skipping the empty slots from the start of [suf] and then walking to
    [end()] visits the occupied slots of [suf]. *)
Lemma skip_then_visit (this_set : Z) (suf : list Z) :
  forall (pre : list Z) (fuel1 fuel2 steps : nat),
  table_size (pre ++ suf) + 1 < 2 ^ 64 ->
  (List.length suf < fuel1)%nat -> (List.length suf < fuel2)%nat ->
  (List.length suf < steps)%nat ->
  obind (skip_empty fuel1 (pre ++ suf) (Z.of_nat (List.length pre)))
    (fun j => visited steps fuel2 (pre ++ suf) {| iteratee := this_set; i := j |})
  = Ret (occupied_from (Z.of_nat (List.length pre)) suf).
Proof.
  induction suf as [| x rest IH]; intros pre fuel1 fuel2 steps Hmax Hf1 Hf2 Hsteps;
    cbn [List.length] in *.
  - destruct fuel1 as [| fuel1]; [lia |]. destruct steps as [| steps]; [lia |].
    cbn [skip_empty]. rewrite table_size_app. cbn [List.length].
    destruct (Z.ltb_spec (Z.of_nat (List.length pre)) (Z.of_nat (List.length pre) + Z.of_nat 0))
      as [Habs | _]; [lia |].
    cbn [andb obind visited]. unfold neqb, eqb, end_, construct_at. cbn [i iteratee].
    rewrite table_size_app. cbn [List.length].
    rewrite Z.eqb_refl. replace (Z.of_nat (List.length pre) + Z.of_nat 0)
      with (Z.of_nat (List.length pre)) by lia.
    rewrite Z.eqb_refl. reflexivity.
  - assert (Hstep : pre ++ x :: rest = (pre ++ [x]) ++ rest)
      by (rewrite <- app_assoc; reflexivity).
    assert (Hlen : Z.of_nat (List.length (pre ++ [x])) = Z.of_nat (List.length pre) + 1)
      by (rewrite length_app; cbn [List.length]; lia).
    pose proof (table_size_app pre (x :: rest)) as Hsize. cbn [List.length] in Hsize.
    destruct fuel1 as [| fuel1]; [lia |].
    cbn [skip_empty occupied_from]. rewrite table_get_app. cbn [hd].
    destruct (Z.ltb_spec (Z.of_nat (List.length pre)) (table_size (pre ++ x :: rest)))
      as [_ | Habs]; [| lia].
    cbn [andb]. rewrite wrap64_small by lia.
    destruct (Z.eqb_spec x 0) as [Hzero | Hentry].
    + rewrite Hstep, <- Hlen. apply IH; try lia. rewrite <- Hstep. exact Hmax.
    + cbn [obind]. destruct steps as [| steps]; [lia |].
      cbn [visited]. unfold neqb at 1, eqb, end_, construct_at. cbn [i iteratee].
      rewrite Z.eqb_refl.
      destruct (Z.eqb_spec (Z.of_nat (List.length pre)) (table_size (pre ++ x :: rest)))
        as [Habs | _]; [lia |].
      cbn [andb negb]. unfold incr. cbn [i iteratee]. rewrite wrap64_small by lia.
      specialize (IH (pre ++ [x]) fuel2 fuel2 steps).
      rewrite <- Hstep, Hlen in IH. specialize (IH Hmax ltac:(lia) ltac:(lia) ltac:(lia)).
      destruct (skip_empty fuel2 (pre ++ x :: rest) (Z.of_nat (List.length pre) + 1))
        as [j | e | why |]; cbn [obind] in *; try discriminate.
      rewrite IH. reflexivity.
Qed.

(** X28. A walk from [begin()] by [++] until [end()] visits exactly the
    slots of the table that hold an entry, each once and in rising order,
    when the constructor starts from slot 0. *)
Theorem iterator_visits_occupied_slots (table : list Z) (this_set : Z)
  (fuel steps : nat) :
  table_size table + 1 < 2 ^ 64 ->
  (List.length table < fuel)%nat -> (List.length table < steps)%nat ->
  obind (begin fuel table this_set 0) (visited steps fuel table)
  = Ret (occupied_from 0 table).
Proof.
  intros Hmax Hfuel Hsteps.
  pose proof (skip_then_visit this_set table [] fuel fuel steps Hmax Hfuel Hfuel Hsteps) as H.
  cbn [app List.length Z.of_nat] in H.
  unfold begin, construct.
  destruct (skip_empty fuel table 0) as [j | e | why |]; cbn [obind] in *; exact H.
Qed.

End PackedSetIterator.

Lemma iterator_stops_on_entries_witness :
  exists it,
    PackedSet.begin 5 [0; 0; 7; 0] 1 0 = Ret it /\
    (forall k, 0 <= k < PackedSet.i it -> PackedSet.table_get [0; 0; 7; 0] k = 0) /\
    (PackedSet.i it < 4 -> PackedSet.table_get [0; 0; 7; 0] (PackedSet.i it) <> 0).
Proof.
  destruct (iterator_stops_on_entries 5 [0; 0; 7; 0] 1 0)
    as ((it & Hrun & _ & _ & Hzeros & Hstop) & _).
  - vm_compute. reflexivity.
  - vm_compute. split; discriminate.
  - vm_compute. lia.
  - exists it. split; [exact Hrun |]. split; [exact Hzeros | exact Hstop].
Defined.

Lemma iterator_visits_occupied_slots_witness :
  obind (PackedSet.begin 6 [0; 5; 0; 0; 9] 1 0) (PackedSet.visited 6 6 [0; 5; 0; 0; 9])
  = Ret [1; 4].
Proof.
  apply (iterator_visits_occupied_slots [0; 5; 0; 0; 9] 1 6 6).
  - vm_compute. reflexivity.
  - cbn. lia.
  - cbn. lia.
Defined.

(** * [CompatVector] *)

Lemma bind_Ret_inv {S A B : Type} (m : M S A) (k : A -> M S B) (s s' : S) (b : B) :
  bind m k s = (Ret b, s') ->
  exists a s1, m s = (Ret a, s1) /\ k a s1 = (Ret b, s').
Proof.
  unfold bind. destruct (m s) as [[a | e | why |] s1]; try discriminate.
  intros H. exists a, s1. split; [reflexivity | exact H].
Qed.

Lemma bind_Throw {S A B : Type} (m : M S A) (k : A -> M S B) (s s' : S) (e : exn) :
  m s = (Throw e, s') -> bind m k s = (Throw e, s').
Proof. intros H. unfold bind. rewrite H. reflexivity. Qed.

Lemma bind_Undefined {S A B : Type} (m : M S A) (k : A -> M S B) (s s' : S) (why : ub) :
  m s = (Undefined why, s') -> bind m k s = (Undefined why, s').
Proof. intros H. unfold bind. rewrite H. reflexivity. Qed.

Lemma bind_OutOfFuel {S A B : Type} (m : M S A) (k : A -> M S B) (s s' : S) :
  m s = (OutOfFuel, s') -> bind m k s = (OutOfFuel, s').
Proof. intros H. unfold bind. rewrite H. reflexivity. Qed.

Ltac stops H :=
  first [ rewrite !(bind_Throw _ _ _ _ _ H)
        | rewrite !(bind_Undefined _ _ _ _ _ H)
        | rewrite !(bind_OutOfFuel _ _ _ _ H) ]; reflexivity.

Section Vector.

Import CompatVector.
Variable heap : Type.
Variable allocate : Z -> M heap Z.
Variable deallocate : Z -> Z -> M heap unit.
Variable construct_item : Z -> M heap unit.
Variable move_item : Z -> Z -> M heap unit.
Variable destroy_item : Z -> M heap unit.
Variable sizeof_T : Z.

Local Abbreviation state := (state heap).
Local Abbreviation length := (length heap).
Local Abbreviation reserved_length := (reserved_length heap).
Local Abbreviation first := (first heap).
Local Abbreviation resize := (resize heap allocate deallocate construct_item move_item destroy_item sizeof_T).
Local Abbreviation reserve := (reserve heap allocate deallocate move_item destroy_item sizeof_T).
Local Abbreviation clear := (clear heap allocate deallocate construct_item move_item destroy_item sizeof_T).
Local Abbreviation destroy := (destroy heap deallocate destroy_item sizeof_T).
Local Abbreviation same_members := (same_members heap).
Local Abbreviation keeps_members := (keeps_members heap).

Lemma keeps_members_on_heap {A : Type} (op : M heap A) : keeps_members (on_heap heap op).
Proof.
  intros s. unfold on_heap. destruct (op (hp heap s)) as [r h']. repeat split.
Qed.

Lemma keeps_members_for_each (body : Z -> M state unit) :
  (forall i, keeps_members (body i)) ->
  forall count from, keeps_members (for_each heap count from body).
Proof.
  intros Hbody. induction count as [| count IH]; intros from s; cbn [for_each].
  - repeat split.
  - unfold bind. specialize (Hbody from s).
    destruct (body from s) as [[[] | e | why |] s1]; cbn [snd] in *; try assumption.
    specialize (IH (from + 1) s1). unfold same_members in *.
    destruct Hbody as (? & ? & ?), IH as (? & ? & ?). repeat split; congruence.
Qed.

Lemma for_range_members (from to : Z) (body : Z -> M state unit) (s s' : state)
  (r : outcome unit) :
  (forall i, keeps_members (body i)) ->
  for_range heap from to body s = (r, s') -> same_members s s'.
Proof.
  intros Hbody Hrun. unfold for_range in Hrun.
  pose proof (keeps_members_for_each body Hbody (Z.to_nat (to - from)) from s) as H.
  rewrite Hrun in H. exact H.
Qed.

Lemma on_heap_members {A : Type} (op : M heap A) (s s' : state) (r : outcome A) :
  on_heap heap op s = (r, s') -> same_members s s'.
Proof. intros Hrun. pose proof (keeps_members_on_heap op s) as H. rewrite Hrun in H. exact H. Qed.

Ltac step H a s1 Hstep :=
  apply bind_Ret_inv in H; destruct H as (a & s1 & Hstep & H).

Lemma reserve_inv (n : Z) (s s' : state) :
  reserve n s = (Ret tt, s') ->
  length s' = length s /\
  (n <= reserved_length s -> s' = s) /\
  (reserved_length s < n -> reserved_length s' = n).
Proof.
  unfold CompatVector.reserve, size, get_first, get_reserved_length, get_length.
  intros H.
  step H old_first s0 Hs0. injection Hs0 as <- <-.
  step H old_reserved s0 Hs0. injection Hs0 as <- <-.
  destruct (Z.ltb_spec (reserved_length s) n) as [Hgrow | Hfits].
  - step H new_first s1 Hs1. apply on_heap_members in Hs1.
    step H u2 s2 Hs2. unfold set_reserved_length in Hs2. injection Hs2 as _ <-.
    step H len s2' Hs2'. injection Hs2' as <- <-.
    step H u3 s3 Hs3. apply for_range_members in Hs3;
      [| intros; apply keeps_members_on_heap].
    step H u4 s4 Hs4. apply for_range_members in Hs4;
      [| intros; apply keeps_members_on_heap].
    step H u5 s5 Hs5.
    assert (H5 : same_members s4 s5).
    { destruct (negb (first s =? 0)).
      - apply on_heap_members in Hs5. exact Hs5.
      - injection Hs5 as _ <-. repeat split. }
    unfold set_first in H. injection H as <-.
    unfold same_members in *. cbn [CompatVector.length CompatVector.reserved_length
      CompatVector.first] in *.
    destruct Hs1 as (? & ? & ?), Hs3 as (? & ? & ?), Hs4 as (? & ? & ?), H5 as (? & ? & ?).
    repeat split; try lia; congruence.
  - injection H as <-. repeat split; lia.
Qed.

Lemma resize_inv (n : Z) (s s' : state) :
  resize n s = (Ret tt, s') ->
  length s' = n /\
  (n <= reserved_length s -> first s' = first s /\ reserved_length s' = reserved_length s) /\
  (length s <= reserved_length s -> n <= reserved_length s') /\
  reserved_length s <= reserved_length s'.
Proof.
  unfold CompatVector.resize, size, get_first, get_reserved_length, get_length.
  intros H.
  step H len s0 Hs0. injection Hs0 as <- <-.
  destruct (Z.eqb_spec n (length s)) as [Hsame | Hdiff].
  - injection H as <-. repeat split; lia.
  - step H r s0 Hs0. injection Hs0 as <- <-.
    step H u1 s1 Hs1.
    assert (H1 : length s1 = length s /\
                 (n <= reserved_length s -> s1 = s) /\
                 (reserved_length s < n ->
                  reserved_length s1 = Z.max n (wrap64 (length s * RESIZE_FACTOR)))).
    { destruct (Z.ltb_spec (reserved_length s) n) as [Hgrow | Hfits].
      - destruct u1. apply reserve_inv in Hs1. destruct Hs1 as (Hl & _ & Hr).
        repeat split; [exact Hl | lia | intros _; apply Hr; lia].
      - injection Hs1 as _ <-. repeat split; lia. }
    step H p s1' Hs1'. injection Hs1' as <- <-.
    step H u2 s2 Hs2.
    assert (H2 : same_members s1 s2).
    { destruct (n <? length s).
      - apply for_range_members in Hs2; [exact Hs2 | intros; apply keeps_members_on_heap].
      - apply for_range_members in Hs2; [exact Hs2 | intros; apply keeps_members_on_heap]. }
    unfold set_length in H. injection H as <-.
    cbn [CompatVector.length CompatVector.reserved_length CompatVector.first].
    destruct H1 as (Hl1 & Hfit1 & Hgrow1), H2 as (Hl2 & Hr2 & Hf2).
    split; [reflexivity |].
    split; [intros Hfits; rewrite Hf2, Hr2, (Hfit1 Hfits); split; reflexivity |].
    destruct (Z.lt_ge_cases (reserved_length s) n) as [Hgrow | Hfits].
    + rewrite Hr2, (Hgrow1 Hgrow). split; intros; lia.
    + rewrite Hr2, (Hfit1 Hfits). split; intros; lia.
Qed.

(** X29. A [resize] that returns records the new length and leaves behind
    room for it: the reserved length never shrinks, it covers the new length
    whenever it covered the old one, and the data does not move when the new
    length fits into what was reserved. *)
Theorem resize_keeps_length_within_capacity (n : Z) (s s' : state) :
  resize n s = (Ret tt, s') ->
  length s <= reserved_length s ->
  length s' = n /\
  n <= reserved_length s' /\
  reserved_length s <= reserved_length s' /\
  (n <= reserved_length s -> first s' = first s).
Proof.
  intros Hrun Hinv. destruct (resize_inv n s s' Hrun) as (Hl & Hfits & Hcap & Hmono).
  repeat split; try assumption; [apply Hcap, Hinv | intros H; apply Hfits, H].
Qed.

(** X30. [clear] frees the data but keeps the pointer to it: on a vector
    that owns memory, [clear] followed by the destructor is the emptying
    [resize(0)] followed by two [deallocate] calls for the same address, the
    second one with a reserved length of 0. *)
Theorem clear_then_destroy_frees_twice (s : state) :
  first s <> 0 -> 0 <= reserved_length s ->
  (clear ;;; destroy) s
  = (resize 0 ;;;
     on_heap heap (deallocate (first s) (reserved_length s)) ;;;
     set_reserved_length heap 0 ;;;
     on_heap heap (deallocate (first s) 0)) s.
Proof.
  intros Hown Hres. unfold CompatVector.clear. rewrite !bind_assoc.
  destruct (resize 0 s) as [[[] | e | why |] s1] eqn:Hrun;
    try stops Hrun.
  rewrite !(bind_Ret _ _ _ _ _ Hrun).
  destruct (resize_inv 0 s s1 Hrun) as (Hl & Hfits & _).
  destruct (Hfits Hres) as (Hf & Hr).
  run_with (eq_refl : get_first heap s1 = (Ret (first s1), s1)). rewrite Hf.
  destruct (Z.eqb_spec (first s) 0) as [E | _]; [contradiction |]. cbn [negb].
  run_with (eq_refl : get_reserved_length heap s1 = (Ret (reserved_length s1), s1)).
  rewrite Hr.
  destruct (on_heap heap (deallocate (first s) (reserved_length s)) s1)
    as [[[] | e | why |] s2] eqn:Hfree;
    try stops Hfree.
  rewrite !(bind_Ret _ _ _ _ _ Hfree).
  apply on_heap_members in Hfree. destruct Hfree as (Hl2 & Hr2 & Hf2).
  rewrite !(bind_Ret _ _ _ _ _ (eq_refl : set_reserved_length heap 0 s2 = (Ret tt, _))).
  match goal with |- destroy ?st = _ => set (s3 := st) end.
  unfold CompatVector.destroy.
  run_with (eq_refl : get_first heap s3 = (Ret (first s3), s3)).
  replace (first s3) with (first s) by (subst s3; cbn; congruence).
  destruct (Z.eqb_spec (first s) 0) as [E | _]; [contradiction |]. cbn [negb].
  run_with (eq_refl : get_length heap s3 = (Ret (length s3), s3)).
  replace (length s3) with 0 by (subst s3; cbn; congruence).
  unfold for_range. cbn [Z.sub Z.opp Z.add Z.to_nat for_each]. rewrite bind_ret_l.
  run_with (eq_refl : get_reserved_length heap s3 = (Ret (reserved_length s3), s3)).
  reflexivity.
Qed.

End Vector.

Lemma resize_keeps_length_within_capacity_witness :
  let allocate := fun (n : Z) (h : list (Z * Z)) => (Ret 2000, h) in
  let deallocate := fun (p n : Z) (h : list (Z * Z)) => (Ret tt, h ++ [(p, n)]) in
  let item_op := fun (p : Z) (h : list (Z * Z)) => (Ret tt, h) in
  let move_op := fun (dst src : Z) (h : list (Z * Z)) => (Ret tt, h) in
  let s := {| CompatVector.length := 2; CompatVector.reserved_length := 2;
              CompatVector.first := 1000; CompatVector.hp := [] |} in
  let s' := snd (CompatVector.resize (list (Z * Z)) allocate deallocate item_op move_op
                   item_op 4 5 s) in
  CompatVector.length _ s' = 5 /\ 5 <= CompatVector.reserved_length _ s'.
Proof.
  intros allocate deallocate item_op move_op s s'.
  destruct (resize_keeps_length_within_capacity (list (Z * Z)) allocate deallocate item_op
              move_op item_op 4 5 s s') as (Hl & Hr & _).
  - reflexivity.
  - cbn. lia.
  - split; assumption.
Defined.

Lemma clear_then_destroy_frees_twice_witness :
  let allocate := fun (n : Z) (h : list (Z * Z)) => (Ret 2000, h) in
  let deallocate := fun (p n : Z) (h : list (Z * Z)) => (Ret tt, h ++ [(p, n)]) in
  let item_op := fun (p : Z) (h : list (Z * Z)) => (Ret tt, h) in
  let move_op := fun (dst src : Z) (h : list (Z * Z)) => (Ret tt, h) in
  let s := {| CompatVector.length := 2; CompatVector.reserved_length := 4;
              CompatVector.first := 1000; CompatVector.hp := [] |} in
  CompatVector.hp _
    (snd ((CompatVector.clear (list (Z * Z)) allocate deallocate item_op move_op item_op 4 ;;;
           CompatVector.destroy (list (Z * Z)) deallocate item_op 4) s))
  = [(1000, 4); (1000, 0)].
Proof.
  intros allocate deallocate item_op move_op s.
  rewrite (clear_then_destroy_frees_twice (list (Z * Z)) allocate deallocate item_op
             move_op item_op 4 s); [reflexivity | discriminate | discriminate].
Defined.
